(** * MTU accounting of the tunnel transport: src/openvpn/mtu.c

    A shallow embedding of the functions of [mtu.c] and the properties of
    the frame model, the overhead calculators, the frame finaliser, the
    dynamic MTU controller, the discovery-mode translation and the
    extended socket-error interpreter.

    Conventions of the embedding:
    - a C [int] is a [Z] and every [int] operation is followed by
      [int_wrap], the two's complement result on 32 bits; [unsigned int]
      and [size_t] results are reduced modulo their width;
    - a function that may end the process ([ASSERT], [msg] at [M_FATAL])
      lives in the monad [M], which threads the lines handed to the
      logging collaborator and records how the call ends;
    - what [mtu.c] takes from headers that are not part of the sources
      (macros of mtu.h, the clamp of integer.h, the crypto and socket
      helpers, constants of the system headers) is a field of an interface
      class: the theorems hold for every implementation of the interface. *)

From Stdlib Require Import ZArith List String Ascii Bool Lia Permutation.
From Stdlib Require Import DecimalString DecimalFacts DecimalPos.
From stdpp Require Import gmap.
Import ListNotations.

Local Open Scope string_scope.
Local Open Scope Z_scope.

(* ------------------------------------------------------------------ *)
(** ** C integers *)

Module CInt.

(** Value of a C [int] after an operation whose exact result is [z]. *)
Definition int_wrap (z : Z) : Z := (z + 2 ^ 31) mod 2 ^ 32 - 2 ^ 31.

Definition INT_MIN : Z := - 2 ^ 31.
Definition INT_MAX : Z := 2 ^ 31 - 1.

Definition int_range (z : Z) : Prop := INT_MIN <= z <= INT_MAX.

Definition int_add (a b : Z) : Z := int_wrap (a + b).
Definition int_sub (a b : Z) : Z := int_wrap (a - b).

(** Conversion to [unsigned int] and the sum of two [unsigned int]. *)
Definition to_uint (z : Z) : Z := z mod 2 ^ 32.
Definition uint_add (a b : Z) : Z := to_uint (a + b).

(** Conversion to [size_t] (64 bits) and the sum of two [size_t]. *)
Definition to_size_t (z : Z) : Z := z mod 2 ^ 64.
Definition size_add (a b : Z) : Z := to_size_t (a + b).

(** [flags & bit] read as a condition. *)
Definition flag_set (flags bit : Z) : bool := negb (Z.land flags bit =? 0).

End CInt.
Export CInt.

(* ------------------------------------------------------------------ *)
(** ** C strings *)

(** A C string holds no NUL before its end. *)
Fixpoint cstring (s : string) : Prop :=
  match s with
  | EmptyString => True
  | String c s' => c <> zero /\ cstring s'
  end.

Definition uchar (c : ascii) : Z := Z.of_N (N_of_ascii c).

(** [strcmp]: the difference of the first two bytes that differ, the end
    of a string counting as the byte 0. *)
Fixpoint strcmp (a b : string) : Z :=
  match a, b with
  | EmptyString, EmptyString => 0
  | EmptyString, String d _ => 0 - uchar d
  | String c _, EmptyString => uchar c - 0
  | String c a', String d b' =>
      if Ascii.eqb c d then strcmp a' b' else uchar c - uchar d
  end.

(** The first [n] characters of a string. *)
Fixpoint truncate (n : nat) (s : string) : string :=
  match n, s with
  | O, _ => EmptyString
  | _, EmptyString => EmptyString
  | S n', String c s' => String c (truncate n' s')
  end.

(** The last character of a string, if any. *)
Fixpoint last_char (s : string) : option ascii :=
  match s with
  | EmptyString => None
  | String c EmptyString => Some c
  | String _ s' => last_char s'
  end.

(** The string without its last character. *)
Fixpoint drop_last (s : string) : string :=
  match s with
  | EmptyString => EmptyString
  | String _ EmptyString => EmptyString
  | String c s' => String c (drop_last s')
  end.

(** [%d] of printf. *)
Definition fmt_d (z : Z) : string := NilZero.string_of_int (Z.to_int z).

(* ------------------------------------------------------------------ *)
(** ** Diagnostics and fatal termination *)

(** The message levels [mtu.c] uses. *)
Inductive msglevel : Type :=
| M_WARN
| M_FATAL
| D_MTU_DEBUG.

Definition is_fatal (level : msglevel) : bool :=
  match level with
  | M_FATAL => true
  | _ => false
  end.

Record message : Type := mk_message {
  msg_level : msglevel;
  msg_text : string
}.

(** How a call ends. *)
Inductive outcome (A : Type) : Type :=
| Returns (a : A)
| AssertFailed (expr : string)
| FatalExit.

Arguments Returns {A} a.
Arguments AssertFailed {A} expr.
Arguments FatalExit {A}.

(** A computation receives the lines logged so far and gives the lines
    logged when it ends, with the way it ends. *)
Definition M (A : Type) : Type := list message -> list message * outcome A.

Definition ret {A : Type} (a : A) : M A := fun log => (log, Returns a).

Definition bind {A B : Type} (m : M A) (k : A -> M B) : M B :=
  fun log =>
    match m log with
    | (log', Returns a) => k a log'
    | (log', AssertFailed e) => (log', AssertFailed e)
    | (log', FatalExit) => (log', FatalExit)
    end.

Notation "x <<- m ;; k" := (bind m (fun x => k))
  (at level 100, m at next level, right associativity).
Notation "m ;; k" := (bind m (fun _ => k))
  (at level 100, right associativity).

(** Modelled from the spec: [msg] and [ASSERT] (error.h, not among the
    sources).  Section 6: diagnostics are one-line strings handed to the
    logging collaborator at a severity; fatal failures go through the
    fatal-termination collaborator, a process-level abort with message.
    Section 4.2: a violated contract is an abort. *)
Definition msg (level : msglevel) (text : string) : M unit :=
  fun log =>
    ((log ++ [mk_message level text])%list,
     if is_fatal level then FatalExit else Returns tt).

(** A debug line goes the same way; whether it is printed (debug build,
    verbosity) is the logging collaborator's matter. *)
Definition dmsg (level : msglevel) (text : string) : M unit := msg level text.

Definition ASSERT (cond : bool) (expr : string) : M unit :=
  fun log => (log, if cond then Returns tt else AssertFailed expr).

Definition ended {A : Type} (r : list message * outcome A) : outcome A := snd r.
Definition logged {A : Type} (r : list message * outcome A) : list message := fst r.

Definition is_returns {A : Type} (o : outcome A) : bool :=
  match o with
  | Returns _ => true
  | _ => false
  end.

(* ------------------------------------------------------------------ *)
(** ** Output buffers *)

(** Modelled from the spec: [struct buffer], [alloc_buf_gc], [buf_printf],
    [buf_rmtail] and [BSTR] (buffer.h, not among the sources; section 1
    names the buffer primitives as external collaborators).  A buffer is
    the text written so far with the capacity it was allocated with; a
    formatted write keeps what fits below the capacity, one byte being
    kept for the terminator. *)
Record buffer : Type := mk_buffer {
  capacity : nat;
  data : string
}.

Definition alloc_buf_gc (size : nat) : buffer := mk_buffer size "".

Definition buf_forward_capacity (buf : buffer) : nat :=
  (capacity buf - String.length (data buf))%nat.

Definition buf_printf (buf : buffer) (text : string) : buffer :=
  let cap := buf_forward_capacity buf in
  if (0 <? cap)%nat
  then mk_buffer (capacity buf) (data buf ++ truncate (cap - 1) text)
  else buf.

Definition buf_rmtail (buf : buffer) (remove : ascii) : buffer :=
  match last_char (data buf) with
  | Some c =>
      if Ascii.eqb c remove
      then mk_buffer (capacity buf) (drop_last (data buf))
      else buf
  | None => buf
  end.

Definition BSTR (buf : buffer) : string := data buf.

(* ------------------------------------------------------------------ *)
(** ** The frame model *)

(** [struct frame]: the fields [mtu.c] reads and writes, all of type
    [int]. *)
Record frame : Type := mk_frame {
  link_mtu : Z;
  link_mtu_dynamic : Z;
  extra_frame : Z;
  extra_buffer : Z;
  extra_tun : Z;
  extra_link : Z
}.

Definition set_link_mtu (f : frame) (v : Z) : frame :=
  mk_frame v (link_mtu_dynamic f) (extra_frame f) (extra_buffer f)
           (extra_tun f) (extra_link f).

Definition set_link_mtu_dynamic (f : frame) (v : Z) : frame :=
  mk_frame (link_mtu f) v (extra_frame f) (extra_buffer f)
           (extra_tun f) (extra_link f).

Definition set_extra_frame (f : frame) (v : Z) : frame :=
  mk_frame (link_mtu f) (link_mtu_dynamic f) v (extra_buffer f)
           (extra_tun f) (extra_link f).

Definition set_extra_tun (f : frame) (v : Z) : frame :=
  mk_frame (link_mtu f) (link_mtu_dynamic f) (extra_frame f) (extra_buffer f)
           v (extra_link f).

(** What mtu.h and integer.h give to [mtu.c]; neither header is among the
    sources, so their macros, flag bits and the clamp are taken as an
    interface. *)
Class mtu_h : Type := {
  TUN_MTU_MIN : Z;
  TUN_LINK_DELTA : frame -> Z;
  TUN_MTU_SIZE : frame -> Z;
  EXPANDED_SIZE : frame -> Z;
  EXPANDED_SIZE_MIN : frame -> Z;
  SET_MTU_TUN : Z;
  SET_MTU_UPPER_BOUND : Z;
  constrain_int : Z -> Z -> Z -> Z
}.

(** What the spec says of that interface.  Section 3: floor and ceiling
    are computed from the [extra_*] fields and [link_mtu]; section 4.2: the
    link-to-tun delta is derived from the [extra_*] fields; section 4.3 and
    8: the clamp gives a value of [[floor, ceiling]] when
    [floor <= ceiling]. *)
Record mtu_h_spec {H : mtu_h} : Prop := {
  constrain_int_clamp : forall x lo hi,
    lo <= hi -> constrain_int x lo hi = Z.max lo (Z.min x hi);
  EXPANDED_SIZE_static : forall f d,
    EXPANDED_SIZE (set_link_mtu_dynamic f d) = EXPANDED_SIZE f;
  EXPANDED_SIZE_MIN_static : forall f d,
    EXPANDED_SIZE_MIN (set_link_mtu_dynamic f d) = EXPANDED_SIZE_MIN f;
  TUN_LINK_DELTA_extras : forall f g,
    extra_frame f = extra_frame g -> extra_buffer f = extra_buffer g ->
    extra_tun f = extra_tun g -> extra_link f = extra_link g ->
    TUN_LINK_DELTA f = TUN_LINK_DELTA g
}.

Arguments mtu_h_spec : clear implicits.

(** Modelled from the spec: the definitions of mtu.h and integer.h, used
    where a concrete header is needed (examples and counterexamples).  The
    delta is the sum of the frame-side and tun-side overhead, the tun-side
    MTU is [link_mtu] minus the delta (section 3), the ceiling is
    [link_mtu], the floor is the minimum tun MTU plus the delta, and the
    clamp returns the floor when the interval is empty. *)
Definition mtu_h_model : mtu_h := {|
  TUN_MTU_MIN := 100;
  TUN_LINK_DELTA := fun f => int_add (extra_frame f) (extra_tun f);
  TUN_MTU_SIZE := fun f =>
    int_sub (link_mtu f) (int_add (extra_frame f) (extra_tun f));
  EXPANDED_SIZE := fun f => link_mtu f;
  EXPANDED_SIZE_MIN := fun f =>
    int_add 100 (int_add (extra_frame f) (extra_tun f));
  SET_MTU_TUN := 1;
  SET_MTU_UPPER_BOUND := 2;
  constrain_int := fun x lo hi =>
    if hi <? lo then lo
    else if x <? lo then lo
    else if hi <? x then hi
    else x
|}.

(* ------------------------------------------------------------------ *)
(** ** Frame finaliser, dynamic MTU controller, frame printing *)

(** The buffer [out] that [frame_print] fills. *)
Definition frame_print_out (f : frame) (prefix : option string) : buffer :=
  let out := alloc_buf_gc 256 in
  let out :=
    match prefix with
    | Some p => buf_printf out (p ++ " ")
    | None => out
    end in
  let out := buf_printf out "[" in
  let out := buf_printf out (" L:" ++ fmt_d (link_mtu f)) in
  let out := buf_printf out (" D:" ++ fmt_d (link_mtu_dynamic f)) in
  let out := buf_printf out (" EF:" ++ fmt_d (extra_frame f)) in
  let out := buf_printf out (" EB:" ++ fmt_d (extra_buffer f)) in
  let out := buf_printf out (" ET:" ++ fmt_d (extra_tun f)) in
  let out := buf_printf out (" EL:" ++ fmt_d (extra_link f)) in
  buf_printf out " ]".

Definition frame_print (f : frame) (level : msglevel) (prefix : option string)
  : M unit :=
  msg level (BSTR (frame_print_out f prefix)).

(** The six fields as [frame_print] formats them, when nothing is cut. *)
Definition frame_fields (f : frame) : string :=
  "[" ++ " L:" ++ fmt_d (link_mtu f) ++ " D:" ++ fmt_d (link_mtu_dynamic f)
  ++ " EF:" ++ fmt_d (extra_frame f) ++ " EB:" ++ fmt_d (extra_buffer f)
  ++ " ET:" ++ fmt_d (extra_tun f) ++ " EL:" ++ fmt_d (extra_link f) ++ " ]".

(** A frame whose six fields are values of [int]. *)
Definition int_frame (f : frame) : Prop :=
  int_range (link_mtu f) /\ int_range (link_mtu_dynamic f)
  /\ int_range (extra_frame f) /\ int_range (extra_buffer f)
  /\ int_range (extra_tun f) /\ int_range (extra_link f).

Section Frame.

Context {H : mtu_h}.

(** The frame after the first statement of [frame_finalize]. *)
Definition frame_finalize_assign (f : frame)
           (link_mtu_defined : bool) (link_mtu_arg : Z)
           (tun_mtu_defined : bool) (tun_mtu : Z) : M frame :=
  if tun_mtu_defined
  then
    ASSERT (negb link_mtu_defined) "!link_mtu_defined" ;;
    ret (set_link_mtu f (int_add tun_mtu (TUN_LINK_DELTA f)))
  else
    ASSERT link_mtu_defined "link_mtu_defined" ;;
    ret (set_link_mtu f link_mtu_arg).

(** The value the first statement of [frame_finalize] gives to
    [link_mtu] when exactly one of the two MTUs is defined. *)
Definition assigned_link_mtu (f : frame) (link_mtu_arg : Z)
           (tun_mtu_defined : bool) (tun_mtu : Z) : Z :=
  if tun_mtu_defined then int_add tun_mtu (TUN_LINK_DELTA f) else link_mtu_arg.

(** The warning of [frame_finalize]. *)
Definition tun_mtu_warning (f : frame) : message :=
  mk_message M_WARN
    ("TUN MTU value (" ++ fmt_d (TUN_MTU_SIZE f) ++ ") must be at least "
     ++ fmt_d TUN_MTU_MIN).

Definition frame_finalize (f : frame)
           (link_mtu_defined : bool) (link_mtu_arg : Z)
           (tun_mtu_defined : bool) (tun_mtu : Z) : M frame :=
  f <<- frame_finalize_assign f link_mtu_defined link_mtu_arg
                              tun_mtu_defined tun_mtu ;;
  (if TUN_MTU_SIZE f <? TUN_MTU_MIN
   then
     msg M_WARN ("TUN MTU value (" ++ fmt_d (TUN_MTU_SIZE f)
                 ++ ") must be at least " ++ fmt_d TUN_MTU_MIN) ;;
     frame_print f M_FATAL (Some "MTU is too small")
   else ret tt) ;;
  ret (set_link_mtu_dynamic f (link_mtu f)).

(** [mtu] after the [SET_MTU_TUN] adjustment. *)
Definition adjusted_mtu (f : frame) (mtu flags : Z) : Z :=
  if flag_set flags SET_MTU_TUN
  then int_add mtu (TUN_LINK_DELTA f)
  else mtu.

(** The debug line of [frame_set_mtu_dynamic]. *)
Definition mtu_dynamic_line (mtu flags before after : Z) : message :=
  mk_message D_MTU_DEBUG
    ("MTU DYNAMIC mtu=" ++ fmt_d mtu ++ ", flags=" ++ fmt_d (to_uint flags)
     ++ ", " ++ fmt_d before ++ " -> " ++ fmt_d after).

(** Whether the call stores a value: the condition of the second [if] of
    [frame_set_mtu_dynamic]. *)
Definition stores (f : frame) (mtu flags : Z) : bool :=
  negb (flag_set flags SET_MTU_UPPER_BOUND)
  || (adjusted_mtu f mtu flags <? link_mtu_dynamic f).

Definition frame_set_mtu_dynamic (f : frame) (mtu flags : Z) : M frame :=
  let orig_mtu := mtu in
  let orig_link_mtu_dynamic := link_mtu_dynamic f in
  ASSERT (0 <=? mtu) "mtu >= 0" ;;
  let mtu := adjusted_mtu f mtu flags in
  let f :=
    if negb (flag_set flags SET_MTU_UPPER_BOUND)
       || (mtu <? link_mtu_dynamic f)
    then set_link_mtu_dynamic f
           (constrain_int mtu (EXPANDED_SIZE_MIN f) (EXPANDED_SIZE f))
    else f in
  dmsg D_MTU_DEBUG ("MTU DYNAMIC mtu=" ++ fmt_d orig_mtu
                    ++ ", flags=" ++ fmt_d (to_uint flags)
                    ++ ", " ++ fmt_d orig_link_mtu_dynamic
                    ++ " -> " ++ fmt_d (link_mtu_dynamic f)) ;;
  ret f.

End Frame.

(* ------------------------------------------------------------------ *)
(** ** Overhead redistribution *)

(** [frame_subtract_extra] takes two pointers, which may name the same
    frame: the frames live in a store and each statement reads and writes
    through the pointers.  A pointer that names no frame gives no result. *)
Abbreviation store := (gmap nat frame).

Definition frame_subtract_extra (fp src : nat) (m : store) : option store :=
  f ← m !! fp ;
  s ← m !! src ;
  let m := <[fp := set_extra_frame f (int_sub (extra_frame f) (extra_frame s))]> m in
  f ← m !! fp ;
  s ← m !! src ;
  Some (<[fp := set_extra_tun f (int_add (extra_tun f) (extra_frame s))]> m).

(* ------------------------------------------------------------------ *)
(** ** Options and the overhead calculators *)

(** [struct connection_entry], [struct compress_options] and
    [struct options]: the fields [mtu.c] reads.  A [const char *] that is
    tested for being set is an [option]. *)
Record connection_entry : Type := mk_connection_entry {
  proto : Z;
  socks_proxy_server : option string;
  fragment : Z;
  tun_mtu : Z
}.

Record compress_options : Type := mk_compress_options {
  alg : Z
}.

Record options : Type := mk_options {
  ce : connection_entry;
  tls_server : bool;
  tls_client : bool;
  use_peer_id : bool;
  replay : bool;
  comp : compress_options;
  shared_secret_file : option string;
  ciphername : string;
  authname : string
}.

Definition set_ciphername (o : options) (name : string) : options :=
  mk_options (ce o) (tls_server o) (tls_client o) (use_peer_id o) (replay o)
             (comp o) (shared_secret_file o) name (authname o).

(** What crypto.h, socket.h, comp.h and the build configuration give to
    the overhead calculators; none of them is among the sources. *)
Class overhead_env : Type := {
  key_type : Type;
  cipher_kt : Type;
  cipher : key_type -> cipher_kt;
  cipher_kt_mode_ofb_cfb : cipher_kt -> bool;
  calculate_crypto_overhead : key_type -> bool -> bool -> Z -> bool -> Z;
  init_key_type : string -> string -> bool -> bool -> M key_type;
  proto_is_udp : Z -> bool;
  proto_is_tcp : Z -> bool;
  USE_COMP : bool;
  COMP_ALG_LZ4 : Z;
  COMP_ALG_STUB : Z;
  COMP_ALG_LZO : Z;
  ENABLE_FRAGMENT : bool
}.

(** The crypto overhead is an [unsigned int]. *)
Definition crypto_overhead_uint {E : overhead_env} : Prop :=
  forall kt packet_id long_form payload_size occ,
    0 <= calculate_crypto_overhead kt packet_id long_form payload_size occ
      < 2 ^ 32.

Arguments crypto_overhead_uint : clear implicits.

(** A transport protocol is datagram-oriented or stream-oriented, never
    both: [proto_is_udp] and [proto_is_tcp] of socket.h test the protocol
    for disjoint sets of values. *)
Definition transport_exclusive {E : overhead_env} : Prop :=
  forall p, proto_is_udp p = true -> proto_is_tcp p = false.

Arguments transport_exclusive : clear implicits.

Section Overhead.

Context {E : overhead_env}.

Definition frame_calculate_protocol_header_size
           (kt : key_type) (o : options) (payload_size : Z) (occ : bool) : Z :=
  let header_size := 0 in
  let tlsmode := tls_server o || tls_client o in
  let header_size :=
    if match socks_proxy_server (ce o) with Some _ => true | None => false end
       && proto_is_udp (proto (ce o))
    then size_add header_size 10
    else header_size in
  let header_size :=
    if proto_is_tcp (proto (ce o))
    then size_add header_size 2
    else header_size in
  let header_size :=
    if tlsmode
    then size_add header_size (if use_peer_id o then 4 else 1)
    else header_size in
  let packet_id := replay o in
  let packet_id_long_form :=
    negb tlsmode || cipher_kt_mode_ofb_cfb (cipher kt) in
  size_add header_size
           (calculate_crypto_overhead kt packet_id packet_id_long_form
                                      payload_size occ).

Definition frame_calculate_payload_overhead
           (f : frame) (o : options) (with_extra_tun : bool) : Z :=
  let overhead := 0 in
  let overhead :=
    if with_extra_tun
    then size_add overhead (to_size_t (extra_tun f))
    else overhead in
  let overhead :=
    if USE_COMP
       && ((alg (comp o) =? COMP_ALG_LZ4) || (alg (comp o) =? COMP_ALG_STUB)
           || (alg (comp o) =? COMP_ALG_LZO))
    then size_add overhead 1
    else overhead in
  let overhead :=
    if ENABLE_FRAGMENT && negb (fragment (ce o) =? 0)
    then size_add overhead 4
    else overhead in
  overhead.

Definition frame_calculate_payload_size (f : frame) (o : options) : Z :=
  let payload_size := to_size_t (tun_mtu (ce o)) in
  size_add payload_size (frame_calculate_payload_overhead f o true).

Definition calc_options_string_link_mtu (o : options) (f : frame) : M Z :=
  let payload := to_uint (frame_calculate_payload_size f o) in
  if negb (tls_client o) && negb (tls_server o)
     && match shared_secret_file o with Some _ => false | None => true end
  then ret payload
  else
    let name := ciphername o in
    let overhead := 0 in
    let '(overhead, name) :=
      if strcmp (ciphername o) "BF-CBC" =? 0
      then (uint_add overhead (64 / 8 + 64 / 8), "none")
      else (overhead, name) in
    occ_kt <<- init_key_type name (authname o) true false ;;
    let overhead :=
      to_uint (size_add overhead
                 (frame_calculate_protocol_header_size occ_kt o 0 true)) in
    ret (uint_add payload overhead).

End Overhead.

(** The contributions to the protocol header size, as section 4.1 lists
    them. *)
Definition proxy_bytes {E : overhead_env} (o : options) : Z :=
  match socks_proxy_server (ce o) with
  | Some _ => if proto_is_udp (proto (ce o)) then 10 else 0
  | None => 0
  end.

Definition stream_bytes {E : overhead_env} (o : options) : Z :=
  if proto_is_tcp (proto (ce o)) then 2 else 0.

Definition opcode_bytes (o : options) : Z :=
  if tls_server o || tls_client o
  then (if use_peer_id o then 4 else 1)
  else 0.

Definition crypto_bytes {E : overhead_env}
           (kt : key_type) (o : options) (payload_size : Z) (occ : bool) : Z :=
  calculate_crypto_overhead
    kt (replay o)
    (negb (tls_server o || tls_client o) || cipher_kt_mode_ofb_cfb (cipher kt))
    payload_size occ.

Definition header_contributions {E : overhead_env}
           (kt : key_type) (o : options) (payload_size : Z) (occ : bool)
  : list Z :=
  [proxy_bytes o; stream_bytes o; opcode_bytes o;
   crypto_bytes kt o payload_size occ].

(** A stand-in for the collaborators, to run the calculators on concrete
    options: a key type is the pair of its names, the crypto overhead is
    the packet id (4 or 8 bytes) and a digest of 20 bytes. *)
Definition overhead_env_model : overhead_env := {|
  key_type := string * string;
  cipher_kt := string;
  cipher := fun kt => fst kt;
  cipher_kt_mode_ofb_cfb := fun _ => false;
  calculate_crypto_overhead := fun kt packet_id long_form _ _ =>
    (if packet_id then (if long_form then 8 else 4) else 0)
    + (if String.eqb (snd kt) "none" then 0 else 20);
  init_key_type := fun c a _ _ => ret (c, a);
  proto_is_udp := fun p => p =? 0;
  proto_is_tcp := fun p => (p =? 1) || (p =? 2);
  USE_COMP := true;
  COMP_ALG_LZ4 := 4;
  COMP_ALG_STUB := 1;
  COMP_ALG_LZO := 2;
  ENABLE_FRAGMENT := true
|}.

(* ------------------------------------------------------------------ *)
(** ** Path-MTU discovery mode and the extended socket-error interpreter *)

(** The three discovery modes of the system headers. *)
Record pmtudisc : Type := mk_pmtudisc {
  IP_PMTUDISC_DONT : Z;
  IP_PMTUDISC_WANT : Z;
  IP_PMTUDISC_DO : Z
}.

(** What the system headers give to [mtu.c].  [ip_pmtudisc] is [None] on a
    platform that does not define the three discovery modes (the [#else]
    branch of [translate_mtu_discover_type_name]). *)
Class sys_h : Type := {
  ip_pmtudisc : option pmtudisc;
  SOL_IP : Z;
  IP_RECVERR : Z;
  ETIMEDOUT : Z;
  EMSGSIZE : Z;
  ECONNREFUSED : Z;
  EPROTO : Z;
  EHOSTUNREACH : Z;
  ENETUNREACH : Z;
  EACCES : Z
}.

(** The values of the Linux headers. *)
Definition linux : sys_h := {|
  ip_pmtudisc := Some (mk_pmtudisc 0 1 2);
  SOL_IP := 0;
  IP_RECVERR := 11;
  ETIMEDOUT := 110;
  EMSGSIZE := 90;
  ECONNREFUSED := 111;
  EPROTO := 71;
  EHOSTUNREACH := 113;
  ENETUNREACH := 101;
  EACCES := 13
|}.

(** A platform without the discovery modes, with the other values of
    [linux]. *)
Definition no_pmtudisc : sys_h := {|
  ip_pmtudisc := None;
  SOL_IP := 0;
  IP_RECVERR := 11;
  ETIMEDOUT := 110;
  EMSGSIZE := 90;
  ECONNREFUSED := 111;
  EPROTO := 71;
  EHOSTUNREACH := 113;
  ENETUNREACH := 101;
  EACCES := 13
|}.

Definition MTUDISC_NOT_SUPPORTED_MSG : string :=
  "--mtu-disc is not supported on this OS".

Definition invalid_mtu_disc_msg (name : string) : string :=
  "invalid --mtu-disc type: '" ++ name
  ++ "' -- valid types are 'yes', 'maybe', or 'no'".

(** [struct sock_extended_err] and [struct cmsghdr] as the interpreter
    reads them; a received message is the list of its control messages,
    and the error queue of the socket is the list of the messages
    [recvmsg] hands out before it fails. *)
Record sock_extended_err : Type := mk_sock_extended_err {
  ee_errno : Z;
  ee_info : Z
}.

Record cmsghdr : Type := mk_cmsghdr {
  cmsg_level : Z;
  cmsg_type : Z;
  CMSG_DATA : sock_extended_err
}.

Definition msghdr : Type := list cmsghdr.
Definition errqueue : Type := list msghdr.

(** A C [switch]: the first case whose label is the value, or the
    default. *)
Fixpoint switch {A : Type} (v : Z) (cases : list (Z * A)) (default : A) : A :=
  match cases with
  | [] => default
  | (label, body) :: rest =>
      if v =? label then body else switch v rest default
  end.

Section Discovery.

Context {S : sys_h}.

Definition translate_mtu_discover_type_name (name : string) : M Z :=
  match ip_pmtudisc with
  | Some modes =>
      if strcmp name "yes" =? 0 then ret (IP_PMTUDISC_DO modes)
      else if strcmp name "maybe" =? 0 then ret (IP_PMTUDISC_WANT modes)
      else if strcmp name "no" =? 0 then ret (IP_PMTUDISC_DONT modes)
      else
        msg M_FATAL (invalid_mtu_disc_msg name) ;;
        ret (-1)
  | None =>
      msg M_FATAL MTUDISC_NOT_SUPPORTED_MSG ;;
      ret (-1)
  end.

(** The [for] loop over the control messages of one message. *)
Fixpoint scan_cmsgs (cmsgs : msghdr) (e : option sock_extended_err)
         (out : buffer) : option sock_extended_err * buffer :=
  match cmsgs with
  | [] => (e, out)
  | cmsg :: rest =>
      if cmsg_level cmsg =? SOL_IP
      then
        if cmsg_type cmsg =? IP_RECVERR
        then scan_cmsgs rest (Some (CMSG_DATA cmsg)) out
        else scan_cmsgs rest e
               (buf_printf out ("CMSG=" ++ fmt_d (cmsg_type cmsg) ++ "|"))
      else scan_cmsgs rest e out
  end.

(** The [switch] on [e->ee_errno]. *)
Definition classify_errno (e : sock_extended_err) (out : buffer) (mtu : Z)
  : buffer * Z :=
  switch (ee_errno e)
    [ (ETIMEDOUT, (buf_printf out "ETIMEDOUT|", mtu));
      (EMSGSIZE,
       (buf_printf out ("EMSGSIZE Path-MTU=" ++ fmt_d (int_wrap (ee_info e))
                        ++ "|"),
        int_wrap (ee_info e)));
      (ECONNREFUSED, (buf_printf out "ECONNREFUSED|", mtu));
      (EPROTO, (buf_printf out "EPROTO|", mtu));
      (EHOSTUNREACH, (buf_printf out "EHOSTUNREACH|", mtu));
      (ENETUNREACH, (buf_printf out "ENETUNREACH|", mtu));
      (EACCES, (buf_printf out "EACCES|", mtu)) ]
    (buf_printf out "UNKNOWN|", mtu).

(** The [while (true)] loop: [recvmsg(fd, &msg, MSG_ERRQUEUE)] takes the
    next message of the queue, and fails ([res < 0]) on the empty queue. *)
Fixpoint drain (fd : errqueue) (out : buffer) (mtu : Z)
  : buffer * Z * errqueue :=
  match fd with
  | [] => (out, mtu, [])
  | m :: fd' =>
      let '(e, out) := scan_cmsgs m None out in
      match e with
      | None => (buf_printf out "NO-INFO|", mtu, fd')
      | Some e =>
          let '(out, mtu) := classify_errno e out mtu in
          drain fd' out mtu
      end
  end.

(** The description, the value stored in [*mtu] and the error queue the
    call leaves. *)
Definition format_extended_socket_error (fd : errqueue)
  : string * Z * errqueue :=
  let out := alloc_buf_gc 256 in
  let mtu := 0 in
  let '(out, mtu, fd) := drain fd out mtu in
  let out := buf_rmtail out "|" in
  (BSTR out, mtu, fd).

End Discovery.

(** *** The trace and the discovered MTU, as section 4.6 words them *)

Inductive classification : Type :=
| Timeout
| TooLarge (path_mtu : Z)
| ConnectionRefused
| ProtocolError
| HostUnreachable
| NetworkUnreachable
| PermissionDenied
| Unknown.

Definition describe (c : classification) : string :=
  match c with
  | Timeout => "ETIMEDOUT"
  | TooLarge path_mtu => "EMSGSIZE Path-MTU=" ++ fmt_d path_mtu
  | ConnectionRefused => "ECONNREFUSED"
  | ProtocolError => "EPROTO"
  | HostUnreachable => "EHOSTUNREACH"
  | NetworkUnreachable => "ENETUNREACH"
  | PermissionDenied => "EACCES"
  | Unknown => "UNKNOWN"
  end.

Section Trace.

Context {S : sys_h}.

Definition is_recverr (c : cmsghdr) : bool :=
  (cmsg_level c =? SOL_IP) && (cmsg_type c =? IP_RECVERR).

Definition is_other_ip (c : cmsghdr) : bool :=
  (cmsg_level c =? SOL_IP) && negb (cmsg_type c =? IP_RECVERR).

(** The structured error metadata of an entry, if it carries any. *)
Definition extended_err (m : msghdr) : option sock_extended_err :=
  match rev (List.filter is_recverr m) with
  | [] => None
  | c :: _ => Some (CMSG_DATA c)
  end.

Definition classify (e : sock_extended_err) : classification :=
  switch (ee_errno e)
    [ (ETIMEDOUT, Timeout);
      (EMSGSIZE, TooLarge (int_wrap (ee_info e)));
      (ECONNREFUSED, ConnectionRefused);
      (EPROTO, ProtocolError);
      (EHOSTUNREACH, HostUnreachable);
      (ENETUNREACH, NetworkUnreachable);
      (EACCES, PermissionDenied) ]
    Unknown.

(** The notes of the other control messages of level [SOL_IP]. *)
Definition cmsg_notes (m : msghdr) : list string :=
  map (fun c => "CMSG=" ++ fmt_d (cmsg_type c)) (List.filter is_other_ip m).

(** The trace elements of one entry: its notes, then the classification. *)
Definition entry_elements (m : msghdr) : list string :=
  app (cmsg_notes m)
      [match extended_err m with
       | Some e => describe (classify e)
       | None => "NO-INFO"
       end].

(** The path MTU an entry reports, if it is classified as too large. *)
Definition entry_mtu (m : msghdr) : list Z :=
  match extended_err m with
  | Some e =>
      match classify e with
      | TooLarge path_mtu => [path_mtu]
      | _ => []
      end
  | None => []
  end.

(** The entries the drain receives: the queue up to its first entry
    without metadata, that entry included. *)
Fixpoint received (fd : errqueue) : list msghdr :=
  match fd with
  | [] => []
  | m :: fd' =>
      match extended_err m with
      | Some _ => m :: received fd'
      | None => [m]
      end
  end.

Definition trace_elements (fd : errqueue) : list string :=
  concat (map entry_elements (received fd)).

Definition expected_trace (fd : errqueue) : string :=
  String.concat "|" (trace_elements fd).

Definition discovered_mtu (ms : list msghdr) : Z :=
  List.last (concat (map entry_mtu ms)) 0.

End Trace.

(** The text the interpreter writes for a list of trace elements: each
    element followed by its separator. *)
Fixpoint separated (elements : list string) : string :=
  match elements with
  | [] => ""
  | e :: rest => e ++ "|" ++ separated rest
  end.

(** A text that ends in a character other than the separator. *)
Definition ends_plain (s : string) : Prop :=
  exists c, last_char s = Some c /\ c <> "|"%char.

(** Entries of the error queue for the examples. *)
Definition entry (errno info : Z) : msghdr :=
  [mk_cmsghdr 0 11 (mk_sock_extended_err errno info)].

Definition entry_no_info : msghdr := [].

(** Timeout, message too large with path MTU 1400, host unreachable. *)
Definition queue_three : errqueue :=
  [entry 110 0; entry 90 1400; entry 113 0].

(** Twenty times host unreachable. *)
Definition queue_twenty : errqueue := repeat (entry 113 0) 20.

(** Eighteen times host unreachable, network unreachable, timeout: a trace
    of 255 characters. *)
Definition queue_full : errqueue :=
  (repeat (entry 113 0) 18 ++ [entry 101 0; entry 110 0])%list.

(** Thirty-one times an unknown error, a protocol error, an unknown error:
    the separator behind the protocol error is character 255 of the text
    written. *)
Definition queue_separator_last : errqueue :=
  (repeat (entry 1 0) 31 ++ [entry 71 0; entry 1 0])%list.


(** Whether TLS mode or a pre-shared secret is configured: the negation of
    the first test of [calc_options_string_link_mtu]. *)
Definition crypto_configured (o : options) : bool :=
  tls_client o || tls_server o
  || match shared_secret_file o with Some _ => true | None => false end.

(** The sum of a list of sizes. *)
Definition Zsum (l : list Z) : Z := fold_right Z.add 0 l.

(** Options for the examples: UDP through a socks proxy, TLS server with
    peer id and replay protection, tun MTU 1500. *)
Definition options_udp_proxy : options :=
  mk_options (mk_connection_entry 0 (Some "proxy") 0 1500)
             true false true true (mk_compress_options 0) None
             "BF-CBC" "SHA1".

(** The same through TCP: a socks proxy, a stream transport, TLS server
    with peer id and replay protection. *)
Definition options_tcp_proxy : options :=
  mk_options (mk_connection_entry 1 (Some "proxy") 0 1500)
             true false true true (mk_compress_options 0) None
             "BF-CBC" "SHA1".

(** TCP client with a pre-shared secret, no TLS, cipher "AES-256-CBC". *)
Definition options_static_key : options :=
  mk_options (mk_connection_entry 1 None 0 1500)
             false false true true (mk_compress_options 0) (Some "key")
             "AES-256-CBC" "SHA1".

(** UDP, neither TLS nor a secret, fragmentation on. *)
Definition options_plain : options :=
  mk_options (mk_connection_entry 0 None 1300 1500)
             false false false false (mk_compress_options 0) None
             "none" "none".

(** Frames and stores for the examples. *)
Definition frame_1500 : frame := mk_frame 1500 1500 40 0 0 0.
Definition frame_low_dynamic : frame := mk_frame 1500 50 0 0 0 0.
Definition frame_zero : frame := mk_frame 0 0 0 0 0 0.
Definition frame_overhead_40 : frame := mk_frame 0 0 40 0 0 0.
Definition frame_fragment : frame := mk_frame 1500 1500 10 0 5 0.
Definition frame_omit : frame := mk_frame 0 0 4 0 0 0.

Definition store_two : store :=
  <[1%nat := frame_fragment]> (<[2%nat := frame_omit]> ∅).
Definition store_one : store := <[1%nat := frame_fragment]> ∅.
Definition store_zero_src : store :=
  <[1%nat := frame_fragment]> (<[2%nat := frame_zero]> ∅).

(* ------------------------------------------------------------------ *)
(** ** Socket options *)

(** What the socket headers, error.h and the C library give to
    [set_mtu_discover_type] and [set_sock_extended_error_passing]: the
    state the system keeps for a socket and [setsockopt] on it (the state
    after the call and the value returned, 0 on success), the address
    families and protocol levels, the two discovery options ([None] where
    the header does not define one, so that its [case] is not compiled),
    the level [M_ERR] and the flag [M_ERRNO] added to a level. *)
Class socket_h : Type := {
  socket : Type;
  setsockopt : socket -> Z -> Z -> Z -> socket * Z;
  AF_INET : Z;
  AF_INET6 : Z;
  IPPROTO_IP : Z;
  IPPROTO_IPV6 : Z;
  IP_MTU_DISCOVER : option Z;
  IPV6_MTU_DISCOVER : option Z;
  M_ERR : msglevel;
  or_M_ERRNO : msglevel -> msglevel
}.

Section SocketOptions.

Context {S : sys_h} {K : socket_h}.

(** The [case AF_INET] of [set_mtu_discover_type]. *)
Definition mtu_discover_inet (sd : socket) (mtu_type optname : Z) : M socket :=
  let '(sd, res) := setsockopt sd IPPROTO_IP optname mtu_type in
  (if negb (res =? 0)
   then msg M_ERR ("Error setting IP_MTU_DISCOVER type=" ++ fmt_d mtu_type
                   ++ " on TCP/UDP socket")
   else ret tt) ;;
  ret sd.

(** The [case AF_INET6]. *)
Definition mtu_discover_inet6 (sd : socket) (mtu_type optname : Z) : M socket :=
  let '(sd, res) := setsockopt sd IPPROTO_IPV6 optname mtu_type in
  (if negb (res =? 0)
   then msg M_ERR ("Error setting IPV6_MTU_DISCOVER type=" ++ fmt_d mtu_type
                   ++ " on TCP6/UDP6 socket")
   else ret tt) ;;
  ret sd.

(** The cases the preprocessor keeps in the [switch]. *)
Definition mtu_discover_cases (sd : socket) (mtu_type : Z)
  : list (Z * M socket) :=
  app (match IP_MTU_DISCOVER with
       | Some optname => [(AF_INET, mtu_discover_inet sd mtu_type optname)]
       | None => []
       end)
      (match IPV6_MTU_DISCOVER with
       | Some optname => [(AF_INET6, mtu_discover_inet6 sd mtu_type optname)]
       | None => []
       end).

Definition set_mtu_discover_type (sd : socket) (mtu_type : Z) (proto_af : Z)
  : M socket :=
  if 0 <=? mtu_type
  then
    switch proto_af (mtu_discover_cases sd mtu_type)
           (msg M_FATAL MTUDISC_NOT_SUPPORTED_MSG ;; ret sd)
  else ret sd.

Definition set_sock_extended_error_passing (sd : socket) : M socket :=
  let on := 1 in
  let '(sd, res) := setsockopt sd SOL_IP IP_RECVERR on in
  (if negb (res =? 0)
   then msg (or_M_ERRNO M_WARN)
            "Note: enable extended error passing on TCP/UDP socket failed (IP_RECVERR)"
   else ret tt) ;;
  ret sd.

End SocketOptions.

(** A socket for the examples: the options set on it, last first;
    [setsockopt] refuses a value above 2.  [M_ERR] is fatal and [M_ERRNO]
    leaves the level as it is. *)
Definition socket_model : socket_h := {|
  socket := list (Z * Z * Z);
  setsockopt := fun sd level optname value =>
    if value <=? 2 then ((level, optname, value) :: sd, 0) else (sd, -1);
  AF_INET := 2;
  AF_INET6 := 10;
  IPPROTO_IP := 0;
  IPPROTO_IPV6 := 41;
  IP_MTU_DISCOVER := Some 10;
  IPV6_MTU_DISCOVER := Some 23;
  M_ERR := M_FATAL;
  or_M_ERRNO := fun level => level
|}.

(* ================================================================== *)
(** * Properties *)

(** ** C integers *)

Lemma int_wrap_range (z : Z) : int_range (int_wrap z).
Proof.
  unfold int_range, int_wrap, INT_MIN, INT_MAX.
  pose proof (Z.mod_pos_bound (z + 2 ^ 31) (2 ^ 32)); lia.
Qed.

Lemma int_wrap_id (z : Z) : int_range z -> int_wrap z = z.
Proof.
  unfold int_range, int_wrap, INT_MIN, INT_MAX; intros Hz.
  rewrite Z.mod_small; lia.
Qed.

Lemma int_wrap_add_l (a b : Z) : int_wrap (int_wrap a + b) = int_wrap (a + b).
Proof.
  unfold int_wrap.
  replace ((a + 2 ^ 31) mod 2 ^ 32 - 2 ^ 31 + b + 2 ^ 31)
    with ((a + 2 ^ 31) mod 2 ^ 32 + b) by lia.
  rewrite Zplus_mod_idemp_l.
  do 2 f_equal; lia.
Qed.

Lemma int_wrap_add_r (a b : Z) : int_wrap (a + int_wrap b) = int_wrap (a + b).
Proof. rewrite Z.add_comm, int_wrap_add_l; f_equal; lia. Qed.

Lemma int_add_sub_moved (a b s : Z) :
  int_add (int_sub a s) (int_add b s) = int_add a b.
Proof.
  unfold int_add, int_sub.
  rewrite int_wrap_add_l, int_wrap_add_r; f_equal; lia.
Qed.

Lemma to_uint_idem_add (a b : Z) : to_uint (a + to_uint b) = to_uint (a + b).
Proof. unfold to_uint; apply Zplus_mod_idemp_r. Qed.

Lemma to_uint_of_size_t (z : Z) : to_uint (to_size_t z) = to_uint z.
Proof.
  unfold to_uint, to_size_t.
  apply Z.mod_mod_divide.
  exists (2 ^ 32); reflexivity.
Qed.

(** ** The header model meets the spec of the header *)

Lemma mtu_h_model_spec : mtu_h_spec mtu_h_model.
Proof.
  split; simpl.
  - intros x lo hi Hle.
    destruct (hi <? lo) eqn:E1; [apply Z.ltb_lt in E1; lia |].
    destruct (x <? lo) eqn:E2; [apply Z.ltb_lt in E2; lia |].
    apply Z.ltb_ge in E2.
    destruct (hi <? x) eqn:E3;
      [apply Z.ltb_lt in E3 | apply Z.ltb_ge in E3]; lia.
  - reflexivity.
  - reflexivity.
  - intros f g Hf _ Ht _; now rewrite Hf, Ht.
Qed.

(** ** Dynamic MTU controller *)

Section FrameProperties.

Context {hdr : mtu_h}.

Lemma frame_set_mtu_dynamic_run (f : frame) (mtu flags : Z) (log : list message) :
  0 <= mtu ->
  let f' :=
    if stores f mtu flags
    then set_link_mtu_dynamic f
           (constrain_int (adjusted_mtu f mtu flags)
                          (EXPANDED_SIZE_MIN f) (EXPANDED_SIZE f))
    else f in
  frame_set_mtu_dynamic f mtu flags log
  = ((log ++ [mtu_dynamic_line mtu flags (link_mtu_dynamic f)
                               (link_mtu_dynamic f')])%list,
     Returns f').
Proof.
  intros Hmtu f'; subst f'.
  unfold frame_set_mtu_dynamic, bind, ASSERT, dmsg, msg, ret, stores,
    mtu_dynamic_line.
  apply Z.leb_le in Hmtu; rewrite Hmtu.
  reflexivity.
Qed.

Lemma frame_set_mtu_dynamic_negative (f : frame) (mtu flags : Z)
      (log : list message) :
  mtu < 0 ->
  frame_set_mtu_dynamic f mtu flags log = (log, AssertFailed "mtu >= 0").
Proof.
  intros Hmtu.
  unfold frame_set_mtu_dynamic, bind, ASSERT.
  apply Z.leb_gt in Hmtu; rewrite Hmtu; reflexivity.
Qed.

(** C2: with [SET_MTU_UPPER_BOUND] an adjusted [mtu] at or above the current
    dynamic value leaves the value alone and one below it stores its clamp;
    without the flag the clamp is stored; nothing else of the frame
    changes.  The requested [mtu >= 0] is the contract of the call. *)
Theorem frame_set_mtu_dynamic_upper_bound
        (f : frame) (mtu flags : Z) (log : list message) :
  0 <= mtu ->
  let D := link_mtu_dynamic f in
  let adjusted := adjusted_mtu f mtu flags in
  let clamped :=
    constrain_int adjusted (EXPANDED_SIZE_MIN f) (EXPANDED_SIZE f) in
  exists log' f',
    frame_set_mtu_dynamic f mtu flags log = (log', Returns f')
    /\ (flag_set flags SET_MTU_UPPER_BOUND = true -> D <= adjusted ->
        link_mtu_dynamic f' = D)
    /\ (flag_set flags SET_MTU_UPPER_BOUND = true -> adjusted < D ->
        link_mtu_dynamic f' = clamped)
    /\ (flag_set flags SET_MTU_UPPER_BOUND = false ->
        link_mtu_dynamic f' = clamped)
    /\ link_mtu f' = link_mtu f
    /\ extra_frame f' = extra_frame f
    /\ extra_buffer f' = extra_buffer f
    /\ extra_tun f' = extra_tun f
    /\ extra_link f' = extra_link f.
Proof.
  intros Hmtu D adjusted clamped.
  eexists; eexists; split; [apply frame_set_mtu_dynamic_run; exact Hmtu |].
  unfold stores; fold adjusted; fold D; fold clamped.
  destruct (flag_set flags SET_MTU_UPPER_BOUND); cbn [negb orb].
  - destruct (adjusted <? D) eqn:Hlt;
      [apply Z.ltb_lt in Hlt | apply Z.ltb_ge in Hlt];
      repeat split; intros; try reflexivity; try discriminate; lia.
  - repeat split; intros; try reflexivity; discriminate.
Qed.


End FrameProperties.

Lemma frame_set_mtu_dynamic_upper_bound_witness :
  0 <= 1400
  /\ exists log' f',
       @frame_set_mtu_dynamic mtu_h_model frame_1500 1400 2 [] = (log', Returns f')
       /\ link_mtu_dynamic f' = 1400.
Proof.
  assert (Hmtu : 0 <= 1400) by lia.
  split; [exact Hmtu |].
  destruct (@frame_set_mtu_dynamic_upper_bound mtu_h_model frame_1500 1400 2 []
              Hmtu) as (log' & f' & Hrun & _ & Hlow & _).
  exists log', f'; split; [exact Hrun |].
  apply Hlow; [reflexivity | vm_compute; reflexivity].
Defined.



(** ** Frame finaliser *)

Section FinalizeProperties.

Context {hdr : mtu_h}.

Lemma frame_finalize_run (f : frame) (link_mtu_defined : bool) (link_mtu_arg : Z)
      (tun_mtu_defined : bool) (tun_mtu : Z) (log : list message) :
  xorb link_mtu_defined tun_mtu_defined = true ->
  let f1 := set_link_mtu f (assigned_link_mtu f link_mtu_arg tun_mtu_defined tun_mtu) in
  frame_finalize f link_mtu_defined link_mtu_arg tun_mtu_defined tun_mtu log
  = if TUN_MTU_SIZE f1 <? TUN_MTU_MIN
    then ((log ++ [tun_mtu_warning f1;
                   mk_message M_FATAL
                     (BSTR (frame_print_out f1 (Some "MTU is too small")))])%list,
          FatalExit)
    else (log, Returns (set_link_mtu_dynamic f1 (link_mtu f1))).
Proof.
  intros Hone f1; subst f1.
  unfold frame_finalize, frame_finalize_assign, assigned_link_mtu, bind, ASSERT,
    frame_print, msg, ret, tun_mtu_warning.
  destruct link_mtu_defined, tun_mtu_defined; try discriminate Hone;
    cbn [negb];
    match goal with
    | |- context [?a <? ?b] => destruct (a <? b)
    end; cbn [is_fatal]; rewrite <- ?app_assoc; reflexivity.
Qed.

Lemma frame_finalize_contract (f : frame) (link_mtu_defined : bool)
      (link_mtu_arg : Z) (tun_mtu_defined : bool) (tun_mtu : Z)
      (log : list message) :
  xorb link_mtu_defined tun_mtu_defined = false ->
  frame_finalize f link_mtu_defined link_mtu_arg tun_mtu_defined tun_mtu log
  = (log, AssertFailed (if tun_mtu_defined then "!link_mtu_defined"
                        else "link_mtu_defined")).
Proof.
  intros Hnone.
  destruct link_mtu_defined, tun_mtu_defined; try discriminate Hnone;
    reflexivity.
Qed.

(** C3: a call with exactly one of the two MTUs defined, whose derived tun
    MTU is at or above the minimum, returns without a diagnostic; then
    [link_mtu] is [tun_mtu + TUN_LINK_DELTA(frame)] when the tun MTU was
    given and the given [link_mtu] otherwise, [link_mtu_dynamic] equals
    [link_mtu], and the [extra_*] fields, hence the delta, are as before. *)
Theorem frame_finalize_success (f : frame) (link_mtu_defined : bool)
        (link_mtu_arg : Z) (tun_mtu_defined : bool) (tun_mtu : Z)
        (log : list message) :
  xorb link_mtu_defined tun_mtu_defined = true ->
  TUN_MTU_MIN
  <= TUN_MTU_SIZE
       (set_link_mtu f (assigned_link_mtu f link_mtu_arg tun_mtu_defined tun_mtu)) ->
  exists f',
    frame_finalize f link_mtu_defined link_mtu_arg tun_mtu_defined tun_mtu log
    = (log, Returns f')
    /\ (tun_mtu_defined = true ->
        link_mtu f' = int_add tun_mtu (TUN_LINK_DELTA f))
    /\ (tun_mtu_defined = false -> link_mtu f' = link_mtu_arg)
    /\ link_mtu_dynamic f' = link_mtu f'
    /\ extra_frame f' = extra_frame f
    /\ extra_buffer f' = extra_buffer f
    /\ extra_tun f' = extra_tun f
    /\ extra_link f' = extra_link f
    /\ (mtu_h_spec hdr -> TUN_LINK_DELTA f' = TUN_LINK_DELTA f).
Proof.
  intros Hone Hmin.
  eexists; split.
  - rewrite frame_finalize_run by exact Hone.
    apply Z.ltb_ge in Hmin; rewrite Hmin; reflexivity.
  - unfold assigned_link_mtu.
    repeat split; try (intros ->; reflexivity).
    intros Hspec; apply (TUN_LINK_DELTA_extras Hspec); reflexivity.
Qed.

(** C4: [frame_finalize] does not return in exactly two cases: both or
    neither of the MTUs are defined, where an [ASSERT] fails before
    anything is logged; or the derived tun MTU is below [TUN_MTU_MIN],
    where a warning names the value and the minimum and the frame is then
    printed at [M_FATAL]. *)
Theorem frame_finalize_fatal_cases (f : frame) (link_mtu_defined : bool)
        (link_mtu_arg : Z) (tun_mtu_defined : bool) (tun_mtu : Z)
        (log : list message) :
  let run :=
    frame_finalize f link_mtu_defined link_mtu_arg tun_mtu_defined tun_mtu log in
  let f1 :=
    set_link_mtu f (assigned_link_mtu f link_mtu_arg tun_mtu_defined tun_mtu) in
  (is_returns (ended run) = false
   <-> xorb link_mtu_defined tun_mtu_defined = false
       \/ TUN_MTU_SIZE f1 < TUN_MTU_MIN)
  /\ (xorb link_mtu_defined tun_mtu_defined = false ->
      exists expr, run = (log, AssertFailed expr))
  /\ (xorb link_mtu_defined tun_mtu_defined = true ->
      TUN_MTU_SIZE f1 < TUN_MTU_MIN ->
      exists line,
        run = ((log ++ [mk_message M_WARN
                          ("TUN MTU value (" ++ fmt_d (TUN_MTU_SIZE f1)
                           ++ ") must be at least " ++ fmt_d TUN_MTU_MIN);
                        mk_message M_FATAL line])%list,
               FatalExit)).
Proof.
  intros run f1; subst run.
  destruct (xorb link_mtu_defined tun_mtu_defined) eqn:Hx.
  - rewrite frame_finalize_run by exact Hx; fold f1.
    destruct (TUN_MTU_SIZE f1 <? TUN_MTU_MIN) eqn:Hlt;
      [apply Z.ltb_lt in Hlt | apply Z.ltb_ge in Hlt]; cbn [ended snd is_returns].
    + split; [split; [intros _; right; exact Hlt | reflexivity] |].
      split; [discriminate |].
      intros _ _; eexists; reflexivity.
    + split; [split; [discriminate | intros [Hd | Hd]; [discriminate | lia]] |].
      split; [discriminate | intros _ Hd; lia].
  - rewrite frame_finalize_contract by exact Hx; cbn [ended snd is_returns].
    split; [split; [intros _; left; reflexivity | reflexivity] |].
    split; [intros _; eexists; reflexivity | discriminate].
Qed.

End FinalizeProperties.

Lemma frame_finalize_success_witness :
  (xorb false true = true /\ 100 <= 1500)
  /\ exists f',
       @frame_finalize mtu_h_model frame_zero false 0 true 1500 []
       = ([], Returns f')
       /\ link_mtu f' = 1500
       /\ link_mtu_dynamic f' = 1500.
Proof.
  assert (Hmin : @TUN_MTU_MIN mtu_h_model
                 <= @TUN_MTU_SIZE mtu_h_model
                      (set_link_mtu frame_zero
                         (@assigned_link_mtu mtu_h_model frame_zero 0 true 1500)))
    by (vm_compute; discriminate).
  split; [split; [reflexivity | lia] |].
  destruct (@frame_finalize_success mtu_h_model frame_zero false 0 true 1500 []
              eq_refl Hmin)
    as (f' & Hrun & Htun & _ & Hdyn & _).
  exists f'; split; [exact Hrun |].
  specialize (Htun eq_refl).
  split; [exact Htun | rewrite Hdyn; exact Htun].
Defined.

Lemma frame_finalize_fatal_cases_witness :
  exists line,
    @frame_finalize mtu_h_model frame_overhead_40 true 120 false 0 []
    = ([mk_message M_WARN "TUN MTU value (80) must be at least 100";
        mk_message M_FATAL line],
       FatalExit).
Proof.
  apply (proj2 (proj2 (@frame_finalize_fatal_cases mtu_h_model frame_overhead_40
                         true 120 false 0 []))).
  - reflexivity.
  - vm_compute; reflexivity.
Defined.

(** ** Overhead redistribution *)

(** The frame that [frame_subtract_extra] leaves at [fp] when [src] is
    another frame. *)
Lemma frame_subtract_extra_distinct (m : store) (fp src : nat) (f s : frame) :
  fp <> src -> m !! fp = Some f -> m !! src = Some s ->
  frame_subtract_extra fp src m
  = Some (<[fp := set_extra_tun
                    (set_extra_frame f (int_sub (extra_frame f) (extra_frame s)))
                    (int_add (extra_tun f) (extra_frame s))]>
            (<[fp := set_extra_frame f (int_sub (extra_frame f) (extra_frame s))]> m)).
Proof.
  intros Hne Hf Hs.
  unfold frame_subtract_extra.
  rewrite Hf; cbn [mbind option_bind]; rewrite Hs; cbn [mbind option_bind].
  rewrite lookup_insert_eq; cbn [mbind option_bind].
  rewrite lookup_insert_ne by exact Hne.
  rewrite Hs; reflexivity.
Qed.

(** The frame it leaves when [src] is the frame itself. *)
Lemma frame_subtract_extra_same (m : store) (fp : nat) (f : frame) :
  m !! fp = Some f ->
  frame_subtract_extra fp fp m
  = Some (<[fp := set_extra_tun
                    (set_extra_frame f (int_sub (extra_frame f) (extra_frame f)))
                    (int_add (extra_tun f)
                             (int_sub (extra_frame f) (extra_frame f)))]>
            (<[fp := set_extra_frame f (int_sub (extra_frame f) (extra_frame f))]> m)).
Proof.
  intros Hf.
  unfold frame_subtract_extra.
  rewrite Hf; cbn [mbind option_bind].
  rewrite lookup_insert_eq; cbn [mbind option_bind].
  reflexivity.
Qed.

Lemma int_sub_diag (a : Z) : int_sub a a = 0.
Proof. unfold int_sub; rewrite Z.sub_diag; reflexivity. Qed.

(** C5 (amended): when [src] is not the frame itself, the call moves
    [src.extra_frame] from [extra_frame] to [extra_tun], and the [int] sum
    [extra_frame + extra_tun] is the same after the call as before it, for
    any value of [src.extra_frame]; the exact sum is the same when neither
    update overflows. *)
Theorem frame_subtract_extra_conserves
        (m : store) (fp src : nat) (f s : frame) :
  fp <> src -> m !! fp = Some f -> m !! src = Some s ->
  exists m' f',
    frame_subtract_extra fp src m = Some m'
    /\ m' !! fp = Some f'
    /\ extra_frame f' = int_sub (extra_frame f) (extra_frame s)
    /\ extra_tun f' = int_add (extra_tun f) (extra_frame s)
    /\ int_add (extra_frame f') (extra_tun f')
       = int_add (extra_frame f) (extra_tun f)
    /\ (int_range (extra_frame f - extra_frame s) ->
        int_range (extra_tun f + extra_frame s) ->
        extra_frame f' + extra_tun f' = extra_frame f + extra_tun f).
Proof.
  intros Hne Hf Hs.
  eexists; eexists; split;
    [apply (frame_subtract_extra_distinct m fp src f s Hne Hf Hs) |].
  split; [apply lookup_insert_eq |].
  cbn [extra_frame extra_tun set_extra_tun set_extra_frame].
  split; [reflexivity |]. split; [reflexivity |].
  split; [apply int_add_sub_moved |].
  intros Hsub Hadd.
  unfold int_sub, int_add.
  rewrite (int_wrap_id _ Hsub), (int_wrap_id _ Hadd); lia.
Qed.

Lemma frame_subtract_extra_conserves_witness :
  (1%nat <> 2%nat
   /\ store_two !! 1%nat = Some frame_fragment
   /\ store_two !! 2%nat = Some frame_omit)
  /\ exists m' f',
       frame_subtract_extra 1 2 store_two = Some m'
       /\ m' !! 1%nat = Some f'
       /\ extra_frame f' = 6
       /\ extra_tun f' = 9.
Proof.
  assert (Hne : 1%nat <> 2%nat) by discriminate.
  assert (Hf : store_two !! 1%nat = Some frame_fragment) by reflexivity.
  assert (Hs : store_two !! 2%nat = Some frame_omit) by reflexivity.
  split; [repeat split; assumption |].
  destruct (frame_subtract_extra_conserves store_two 1 2 frame_fragment
              frame_omit Hne Hf Hs)
    as (m' & f' & Hrun & Hlook & Hef & Het & _).
  exists m', f'; repeat split; assumption.
Defined.

(** C5, as stated, fails when [src] is the frame itself: the first
    statement sets [extra_frame] to 0, the second then adds 0 to
    [extra_tun], and the sum falls from 15 to 5. *)
Lemma frame_subtract_extra_aliased_sum :
  exists m',
    frame_subtract_extra 1 1 store_one = Some m'
    /\ store_one !! 1%nat = Some (mk_frame 1500 1500 10 0 5 0)
    /\ m' !! 1%nat = Some (mk_frame 1500 1500 0 0 5 0)
    /\ int_add 10 5 = 15
    /\ int_add 0 5 = 5.
Proof.
  eexists; split; [apply (frame_subtract_extra_same store_one 1 frame_fragment);
                   reflexivity |].
  repeat split; rewrite lookup_insert_eq; reflexivity.
Qed.

(** C10 (amended): the call changes nothing of the frame but [extra_frame]
    and [extra_tun], and no other frame of the store; [src] is as before
    when it is not the frame itself.  When it is, its [extra_frame] is 0
    after the call. *)
Theorem frame_subtract_extra_frame_effect
        (m : store) (fp src : nat) (f s : frame) :
  m !! fp = Some f -> m !! src = Some s ->
  exists m' f',
    frame_subtract_extra fp src m = Some m'
    /\ m' !! fp = Some f'
    /\ link_mtu f' = link_mtu f
    /\ link_mtu_dynamic f' = link_mtu_dynamic f
    /\ extra_buffer f' = extra_buffer f
    /\ extra_link f' = extra_link f
    /\ (forall p : nat, p <> fp -> m' !! p = m !! p)
    /\ (fp <> src -> m' !! src = Some s)
    /\ (fp = src -> extra_frame f' = 0).
Proof.
  intros Hf Hs.
  destruct (decide (fp = src)) as [-> | Hne].
  - eexists; eexists; split; [apply (frame_subtract_extra_same m src f Hf) |].
    split; [apply lookup_insert_eq |].
    cbn [link_mtu link_mtu_dynamic extra_buffer extra_link extra_frame
         set_extra_tun set_extra_frame].
    repeat split; try reflexivity.
    + intros p Hp; now rewrite !lookup_insert_ne by congruence.
    + intros Hd; now destruct Hd.
    + intros _; apply int_sub_diag.
  - eexists; eexists; split;
      [apply (frame_subtract_extra_distinct m fp src f s Hne Hf Hs) |].
    split; [apply lookup_insert_eq |].
    cbn [link_mtu link_mtu_dynamic extra_buffer extra_link extra_frame
         set_extra_tun set_extra_frame].
    repeat split; try reflexivity.
    + intros p Hp; now rewrite !lookup_insert_ne by congruence.
    + intros _; now rewrite !lookup_insert_ne by congruence.
    + intros Hd; now destruct Hne.
Qed.

Lemma frame_subtract_extra_frame_effect_witness :
  (store_two !! 1%nat = Some frame_fragment
   /\ store_two !! 2%nat = Some frame_omit)
  /\ exists m' f',
       frame_subtract_extra 1 2 store_two = Some m'
       /\ m' !! 1%nat = Some f'
       /\ link_mtu f' = 1500
       /\ link_mtu_dynamic f' = 1500
       /\ m' !! 2%nat = Some frame_omit.
Proof.
  assert (Hf : store_two !! 1%nat = Some frame_fragment) by reflexivity.
  assert (Hs : store_two !! 2%nat = Some frame_omit) by reflexivity.
  split; [split; assumption |].
  destruct (frame_subtract_extra_frame_effect store_two 1 2 frame_fragment
              frame_omit Hf Hs)
    as (m' & f' & Hrun & Hlook & Hl & Hd & _ & _ & _ & Hsrc & _).
  exists m', f'; repeat split; try assumption.
  apply Hsrc; discriminate.
Defined.

(** C10, as stated, fails when [src] is the frame itself: [src] is then
    written through [frame], and its [extra_frame] goes from 10 to 0. *)
Lemma frame_subtract_extra_aliased_src :
  exists m' s',
    frame_subtract_extra 1 1 store_one = Some m'
    /\ store_one !! 1%nat = Some frame_fragment
    /\ m' !! 1%nat = Some s'
    /\ extra_frame frame_fragment = 10
    /\ extra_frame s' = 0.
Proof.
  eexists; eexists; split;
    [apply (frame_subtract_extra_same store_one 1 frame_fragment); reflexivity |].
  split; [reflexivity |].
  split; [apply lookup_insert_eq |].
  split; reflexivity.
Qed.

(** ** Overhead calculators *)

Lemma to_uint_idem_add_l (a b : Z) : to_uint (to_uint a + b) = to_uint (a + b).
Proof. unfold to_uint; apply Zplus_mod_idemp_l. Qed.

Lemma to_size_t_small (z : Z) : 0 <= z < 2 ^ 64 -> to_size_t z = z.
Proof. intros Hz; unfold to_size_t; apply Z.mod_small; exact Hz. Qed.

Lemma Zsum_permutation (l l' : list Z) : Permutation l l' -> Zsum l = Zsum l'.
Proof.
  induction 1 as [| x l l' _ IH | x y l | l l' l'' _ IH1 _ IH2]; cbn.
  - reflexivity.
  - fold (Zsum l) (Zsum l'); lia.
  - lia.
  - congruence.
Qed.

Lemma fold_left_size_add (l : list Z) (a : Z) :
  l <> [] -> fold_left size_add l a = to_size_t (a + Zsum l).
Proof.
  revert a; induction l as [| x l IH]; intros a Hne; [now destruct Hne |].
  cbn [fold_left Zsum fold_right].
  destruct l as [| y l].
  - cbn; unfold size_add; f_equal; lia.
  - rewrite IH by discriminate.
    unfold size_add, to_size_t.
    rewrite Zplus_mod_idemp_l; f_equal.
    fold (Zsum (y :: l)); lia.
Qed.

Lemma crypto_overhead_uint_model : crypto_overhead_uint overhead_env_model.
Proof.
  intros kt packet_id long_form payload_size occ; cbn.
  destruct packet_id, long_form, (String.eqb (snd kt) "none"); lia.
Qed.

Section OverheadProperties.

Context {env : overhead_env}.

Lemma header_size_sum (kt : key_type) (o : options) (payload_size : Z)
      (occ : bool) :
  crypto_overhead_uint env ->
  frame_calculate_protocol_header_size kt o payload_size occ
  = proxy_bytes o + stream_bytes o + opcode_bytes o
    + crypto_bytes kt o payload_size occ.
Proof.
  intros Hc.
  unfold frame_calculate_protocol_header_size, proxy_bytes, stream_bytes,
    opcode_bytes, crypto_bytes.
  match goal with
  | |- context [calculate_crypto_overhead ?a ?b ?c ?d ?e] =>
      pose proof (Hc a b c d e) as Hrange;
      generalize dependent (calculate_crypto_overhead a b c d e)
  end.
  intros c Hrange.
  destruct (socks_proxy_server (ce o)), (proto_is_udp (proto (ce o))),
    (proto_is_tcp (proto (ce o))), (tls_server o || tls_client o),
    (use_peer_id o);
    cbn [andb]; unfold size_add;
    repeat match goal with
           | |- context [to_size_t ?z] =>
               rewrite (to_size_t_small z) by lia
           end;
    lia.
Qed.

Lemma header_size_ignores_ciphername (kt : key_type) (o : options)
      (name : string) (payload_size : Z) (occ : bool) :
  frame_calculate_protocol_header_size kt (set_ciphername o name) payload_size occ
  = frame_calculate_protocol_header_size kt o payload_size occ.
Proof. reflexivity. Qed.

Lemma payload_size_ignores_ciphername (f : frame) (o : options) (name : string) :
  frame_calculate_payload_size f (set_ciphername o name)
  = frame_calculate_payload_size f o.
Proof. reflexivity. Qed.


Lemma uint_add_legacy (payload h : Z) :
  uint_add payload (to_uint (size_add (uint_add 0 (64 / 8 + 64 / 8)) h))
  = uint_add (uint_add payload (to_uint (size_add 0 h))) 16.
Proof.
  change (uint_add 0 (64 / 8 + 64 / 8)) with 16.
  unfold uint_add, size_add.
  rewrite !to_uint_of_size_t, to_uint_idem_add, to_uint_idem_add,
    to_uint_idem_add_l.
  f_equal; lia.
Qed.

Lemma uint_add_legacy_split (payload h : Z) :
  uint_add payload (to_uint (size_add (uint_add 0 (64 / 8 + 64 / 8)) h))
  = uint_add payload (uint_add 16 (to_uint h)).
Proof.
  change (uint_add 0 (64 / 8 + 64 / 8)) with 16.
  unfold uint_add, size_add.
  rewrite !to_uint_of_size_t, !to_uint_idem_add.
  rewrite (Z.add_assoc payload 16 (to_uint h)), to_uint_idem_add.
  f_equal; lia.
Qed.

(** C7: with TLS mode or a pre-shared secret configured, the total for the
    cipher name "BF-CBC" is the total for the cipher name "none" plus 16,
    and it is the payload plus 16 plus the protocol header size of the key
    type made from "none" and the configured authentication name; with
    neither configured the total is the payload size, without any crypto
    overhead.  The sums are those of [unsigned int]. *)
Theorem calc_options_string_link_mtu_legacy
        (o : options) (f : frame) (log : list message) :
  let payload := to_uint (frame_calculate_payload_size f o) in
  (crypto_configured o = true ->
   calc_options_string_link_mtu (set_ciphername o "BF-CBC") f log
   = (total <<- calc_options_string_link_mtu (set_ciphername o "none") f ;;
      ret (uint_add total 16)) log
   /\ calc_options_string_link_mtu (set_ciphername o "BF-CBC") f log
      = (occ_kt <<- init_key_type "none" (authname o) true false ;;
         ret (uint_add payload
                (uint_add 16
                   (to_uint (frame_calculate_protocol_header_size
                               occ_kt o 0 true))))) log)
  /\ (crypto_configured o = false ->
      calc_options_string_link_mtu o f log = (log, Returns payload)
      /\ (frame_calculate_payload_size f o < 2 ^ 32 ->
          calc_options_string_link_mtu o f log
          = (log, Returns (frame_calculate_payload_size f o)))).
Proof.
  intros payload; subst payload.
  unfold crypto_configured, calc_options_string_link_mtu.
  cbn [set_ciphername tls_client tls_server shared_secret_file ciphername
       authname].
  rewrite !payload_size_ignores_ciphername.
  change (strcmp "BF-CBC" "BF-CBC" =? 0) with true.
  change (strcmp "none" "BF-CBC" =? 0) with false.
  cbv iota.
  destruct (tls_client o), (tls_server o), (shared_secret_file o);
    cbn [negb andb orb];
    (split; [intros Hconf | intros Hconf]; try discriminate Hconf);
    try (split; unfold bind;
         destruct (init_key_type "none" (authname o) true false log)
           as [log' [kt | expr |]]; try reflexivity; unfold ret;
         rewrite ?header_size_ignores_ciphername;
         [rewrite uint_add_legacy | rewrite uint_add_legacy_split];
         reflexivity).
  split; [reflexivity |].
  intros Hsmall.
  unfold ret, to_uint.
  rewrite Z.mod_small; [reflexivity |].
  split; [| exact Hsmall].
  unfold frame_calculate_payload_size, size_add, to_size_t.
  apply Z.mod_pos_bound; lia.
Qed.

End OverheadProperties.

Lemma transport_exclusive_model : transport_exclusive overhead_env_model.
Proof.
  intros p; cbn.
  destruct (p =? 0) eqn:H0; [| discriminate].
  apply Z.eqb_eq in H0; subst p; reflexivity.
Qed.



Lemma calc_options_string_link_mtu_legacy_witness :
  crypto_configured options_udp_proxy = true
  /\ @calc_options_string_link_mtu overhead_env_model
       (set_ciphername options_udp_proxy "none") frame_zero []
     = ([], Returns 1538)
  /\ @calc_options_string_link_mtu overhead_env_model
       (set_ciphername options_udp_proxy "BF-CBC") frame_zero []
     = ([], Returns 1554).
Proof.
  split; [reflexivity |].
  split; [reflexivity |].
  rewrite (proj1 (proj1 (@calc_options_string_link_mtu_legacy
                           overhead_env_model options_udp_proxy frame_zero [])
                        eq_refl)).
  reflexivity.
Defined.

(** ** Discovery-mode translation *)

Lemma uchar_inj (c d : ascii) : uchar c = uchar d -> c = d.
Proof.
  unfold uchar; intros Heq.
  apply N2Z.inj in Heq.
  rewrite <- (ascii_N_embedding c), <- (ascii_N_embedding d), Heq.
  reflexivity.
Qed.

Lemma uchar_zero (c : ascii) : uchar c = 0 -> c = zero.
Proof. intros Heq; apply uchar_inj; exact Heq. Qed.

Lemma strcmp_eq (a b : string) :
  cstring a -> cstring b -> (strcmp a b = 0 <-> a = b).
Proof.
  revert b; induction a as [| c a IH]; intros [| d b] Ha Hb; cbn.
  - tauto.
  - destruct Hb as [Hd _].
    split; [intros Heq | discriminate].
    destruct Hd; apply uchar_zero; lia.
  - destruct Ha as [Hc _].
    split; [intros Heq | discriminate].
    destruct Hc; apply uchar_zero; lia.
  - destruct Ha as [_ Ha], Hb as [_ Hb].
    destruct (Ascii.eqb c d) eqn:Hcd.
    + apply Ascii.eqb_eq in Hcd; subst d.
      rewrite (IH b Ha Hb).
      split; [intros -> | intros [= ->]]; reflexivity.
    + apply Ascii.eqb_neq in Hcd.
      split; [intros Heq | intros [= -> _]; now destruct Hcd].
      destruct Hcd; apply uchar_inj; lia.
Qed.

Lemma strcmp_eqb (a b : string) :
  cstring a -> cstring b -> a <> b -> (strcmp a b =? 0) = false.
Proof.
  intros Ha Hb Hne.
  apply Z.eqb_neq; intros Heq; apply Hne, (strcmp_eq a b Ha Hb), Heq.
Qed.

Lemma strcmp_refl (a : string) : strcmp a a = 0.
Proof.
  induction a as [| c a IH]; cbn; [reflexivity |].
  rewrite Ascii.eqb_refl; exact IH.
Qed.

(** C8 (amended): on a platform that defines the three discovery modes,
    "yes", "maybe" and "no" give [IP_PMTUDISC_DO], [IP_PMTUDISC_WANT] and
    [IP_PMTUDISC_DONT], nothing is logged, and every other name ends the
    process at [M_FATAL] with the message that quotes the name and lists
    'yes', 'maybe' and 'no'; on a platform that does not define them, every
    name ends the process with the message that the option is not
    supported. *)
Theorem translate_mtu_discover_type_name_cases
        (sys : sys_h) (name : string) (log : list message) :
  cstring name ->
  match ip_pmtudisc with
  | Some modes =>
      (name = "yes" ->
       translate_mtu_discover_type_name name log
       = (log, Returns (IP_PMTUDISC_DO modes)))
      /\ (name = "maybe" ->
          translate_mtu_discover_type_name name log
          = (log, Returns (IP_PMTUDISC_WANT modes)))
      /\ (name = "no" ->
          translate_mtu_discover_type_name name log
          = (log, Returns (IP_PMTUDISC_DONT modes)))
      /\ (name <> "yes" -> name <> "maybe" -> name <> "no" ->
          translate_mtu_discover_type_name name log
          = ((log ++ [mk_message M_FATAL
                        ("invalid --mtu-disc type: '" ++ name
                         ++ "' -- valid types are 'yes', 'maybe', or 'no'")])%list,
             FatalExit))
  | None =>
      translate_mtu_discover_type_name name log
      = ((log ++ [mk_message M_FATAL
                    "--mtu-disc is not supported on this OS"])%list,
         FatalExit)
  end.
Proof.
  intros Hname.
  unfold translate_mtu_discover_type_name.
  destruct ip_pmtudisc as [modes |]; [| reflexivity].
  split; [| split; [| split]].
  - intros ->; reflexivity.
  - intros ->; reflexivity.
  - intros ->; reflexivity.
  - intros Hyes Hmaybe Hno.
    assert (Hlit : cstring "yes" /\ cstring "maybe" /\ cstring "no")
      by (cbn; repeat split; discriminate).
    destruct Hlit as (Hy & Hm & Hn).
    rewrite (strcmp_eqb name "yes" Hname Hy Hyes),
      (strcmp_eqb name "maybe" Hname Hm Hmaybe),
      (strcmp_eqb name "no" Hname Hn Hno).
    reflexivity.
Qed.

Lemma translate_mtu_discover_type_name_cases_witness :
  cstring "maybe"
  /\ @translate_mtu_discover_type_name linux "yes" [] = ([], Returns 2)
  /\ @translate_mtu_discover_type_name linux "maybe" [] = ([], Returns 1)
  /\ @translate_mtu_discover_type_name linux "no" [] = ([], Returns 0)
  /\ @translate_mtu_discover_type_name linux "auto" []
     = ([mk_message M_FATAL
           "invalid --mtu-disc type: 'auto' -- valid types are 'yes', 'maybe', or 'no'"],
        FatalExit).
Proof.
  assert (Hmaybe : cstring "maybe") by (cbn; repeat split; discriminate).
  assert (Hauto : cstring "auto") by (cbn; repeat split; discriminate).
  split; [exact Hmaybe |].
  split; [reflexivity |].
  split;
    [exact (proj1 (proj2 (translate_mtu_discover_type_name_cases linux "maybe" []
                            Hmaybe)) eq_refl) |].
  split; [reflexivity |].
  apply (proj2 (proj2 (proj2 (translate_mtu_discover_type_name_cases
                                linux "auto" [] Hauto))));
    discriminate.
Defined.

(** C8, as stated, fails on a platform without the discovery modes: "yes"
    gives no value there, and the message lists no option. *)
Lemma translate_mtu_discover_type_name_unsupported :
  @translate_mtu_discover_type_name no_pmtudisc "yes" []
  = ([mk_message M_FATAL "--mtu-disc is not supported on this OS"], FatalExit).
Proof. reflexivity. Qed.

(** ** Output buffers *)

Lemma append_cons (c : ascii) (a b : string) :
  String c a ++ b = String c (a ++ b).
Proof. reflexivity. Qed.

Lemma length_append (a b : string) :
  String.length (a ++ b) = (String.length a + String.length b)%nat.
Proof.
  induction a as [| c a IH]; [reflexivity |].
  rewrite append_cons; cbn [String.length Nat.add]; now rewrite IH.
Qed.

Lemma append_assoc (a b c : string) : (a ++ b) ++ c = a ++ (b ++ c).
Proof.
  induction a as [| x a IH]; [reflexivity |].
  rewrite !append_cons; now rewrite IH.
Qed.

Lemma append_empty_r (a : string) : a ++ "" = a.
Proof.
  induction a as [| x a IH]; [reflexivity |].
  rewrite !append_cons; now rewrite IH.
Qed.

Lemma truncate_all (n : nat) (s : string) :
  (String.length s <= n)%nat -> truncate n s = s.
Proof.
  revert n; induction s as [| c s IH]; intros [| n] Hlen; cbn in *;
    try reflexivity; try lia.
  rewrite IH by lia; reflexivity.
Qed.

Lemma last_char_append_char (s : string) (c : ascii) :
  last_char (s ++ String c "") = Some c.
Proof.
  induction s as [| x s IH]; [reflexivity |].
  rewrite append_cons; cbn [last_char]; rewrite IH.
  destruct (s ++ String c ""); [discriminate IH | reflexivity].
Qed.

Lemma drop_last_append_char (s : string) (c : ascii) :
  drop_last (s ++ String c "") = s.
Proof.
  induction s as [| x s IH]; [reflexivity |].
  rewrite append_cons; cbn [drop_last]; rewrite IH.
  destruct s; reflexivity.
Qed.

(** A formatted write that fits is appended whole. *)
Lemma buf_printf_fits (buf : buffer) (text : string) :
  (String.length (data buf) + String.length text < capacity buf)%nat ->
  buf_printf buf text = mk_buffer (capacity buf) (data buf ++ text).
Proof.
  intros Hfit.
  unfold buf_printf, buf_forward_capacity.
  destruct (0 <? capacity buf - String.length (data buf))%nat eqn:Hcap.
  - rewrite truncate_all by lia; reflexivity.
  - apply Nat.ltb_ge in Hcap; lia.
Qed.

Lemma separated_app (a b : list string) :
  separated (a ++ b)%list = separated a ++ separated b.
Proof.
  induction a as [| e a IH]; cbn [separated app]; [reflexivity |].
  rewrite IH, !append_assoc; reflexivity.
Qed.

Lemma separated_concat (elements : list string) :
  elements <> [] -> separated elements = String.concat "|" elements ++ "|".
Proof.
  induction elements as [| e rest IH]; intros Hne; [now destruct Hne |].
  destruct rest as [| e' rest].
  - cbn; now rewrite append_empty_r.
  - cbn [separated String.concat] in *.
    rewrite IH by discriminate.
    rewrite !append_assoc; reflexivity.
Qed.

Lemma last_cons_default {A : Type} (x : A) (l : list A) (d d' : A) :
  List.last (x :: l) d = List.last (x :: l) d'.
Proof.
  revert x; induction l as [| y l IH]; intros x; [reflexivity |].
  change (List.last (y :: l) d = List.last (y :: l) d'); apply IH.
Qed.

Lemma last_app_default {A : Type} (l1 l2 : list A) (d : A) :
  List.last (l1 ++ l2) d = List.last l2 (List.last l1 d).
Proof.
  revert d; induction l1 as [| x l1 IH]; intros d; [reflexivity |].
  destruct l1 as [| y l1].
  - destruct l2 as [| z l2]; [reflexivity |].
    apply (last_cons_default z l2).
  - change (List.last ((y :: l1) ++ l2) d
            = List.last l2 (List.last (y :: l1) d)).
    apply IH.
Qed.

(** ** Truncating writes *)

Lemma truncate_length_le (n : nat) (s : string) :
  (String.length (truncate n s) <= n)%nat.
Proof.
  revert s; induction n as [| n IH]; intros [| c s]; cbn; try lia.
  specialize (IH s); lia.
Qed.

Lemma truncate_app_fit (n : nat) (a b : string) :
  (String.length a <= n)%nat ->
  truncate n (a ++ b) = a ++ truncate (n - String.length a) b.
Proof.
  revert n; induction a as [| c a IH]; intros n Hlen.
  - cbn [String.length]; rewrite Nat.sub_0_r; reflexivity.
  - destruct n as [| n]; [cbn in Hlen; lia |].
    rewrite !append_cons; cbn [truncate String.length Nat.sub].
    rewrite IH by (cbn in Hlen; lia); reflexivity.
Qed.

Lemma truncate_app_short (n : nat) (a b : string) :
  (n <= String.length a)%nat -> truncate n (a ++ b) = truncate n a.
Proof.
  revert a; induction n as [| n IH]; intros a Hlen; [reflexivity |].
  destruct a as [| c a]; [cbn in Hlen; lia |].
  rewrite append_cons; cbn [truncate].
  rewrite IH by (cbn in Hlen; lia); reflexivity.
Qed.

Lemma truncate_idem_app (n : nat) (a b : string) :
  truncate n (truncate n a ++ b) = truncate n (a ++ b).
Proof.
  revert a; induction n as [| n IH]; intros a; [reflexivity |].
  destruct a as [| c a]; [reflexivity |].
  cbn [truncate]; rewrite !append_cons; cbn [truncate].
  rewrite IH; reflexivity.
Qed.

Lemma truncate_prefix (n : nat) (s : string) :
  exists rest, s = truncate n s ++ rest.
Proof.
  revert s; induction n as [| n IH]; intros s; [exists s; reflexivity |].
  destruct s as [| c s]; [exists ""; reflexivity |].
  destruct (IH s) as [rest Hrest].
  exists rest; cbn [truncate]; rewrite append_cons, <- Hrest; reflexivity.
Qed.

Lemma drop_last_prefix (s : string) : exists rest, s = drop_last s ++ rest.
Proof.
  induction s as [| c s IH]; [exists ""; reflexivity |].
  destruct s as [| d s]; [exists (String c ""); reflexivity |].
  destruct IH as [rest Hrest].
  exists rest.
  change (drop_last (String c (String d s)))
    with (String c (drop_last (String d s))).
  rewrite append_cons, <- Hrest; reflexivity.
Qed.

Lemma drop_last_length_le (s : string) :
  (String.length (drop_last s) <= String.length s)%nat.
Proof.
  induction s as [| c s IH]; [cbn; lia |].
  destruct s as [| d s]; [cbn; lia |].
  change (drop_last (String c (String d s)))
    with (String c (drop_last (String d s))).
  cbn [String.length] in *; lia.
Qed.

(** A formatted write into a buffer that holds the first [k] characters of
    a text leaves the first [k] characters of the longer text. *)
Lemma buf_printf_truncated (k : nat) (written : string) (buf : buffer)
      (text : string) :
  capacity buf = S k -> data buf = truncate k written ->
  buf_printf buf text = mk_buffer (S k) (truncate k (written ++ text)).
Proof.
  intros Hcap Hdata.
  pose proof (truncate_length_le k written) as Hlen.
  unfold buf_printf, buf_forward_capacity.
  rewrite Hcap, Hdata.
  destruct (0 <? S k - String.length (truncate k written))%nat eqn:Hpos;
    [| apply Nat.ltb_ge in Hpos; lia].
  rewrite <- (truncate_idem_app k written text).
  rewrite (truncate_app_fit k (truncate k written) text Hlen).
  do 3 f_equal; lia.
Qed.

(** ** Texts that end in no separator *)

Lemma last_char_app_some (a b : string) (c : ascii) :
  last_char b = Some c -> last_char (a ++ b) = Some c.
Proof.
  intros Hb; induction a as [| x a IH]; [exact Hb |].
  rewrite append_cons; cbn [last_char]; rewrite IH.
  destruct (a ++ b); [discriminate IH | reflexivity].
Qed.

Lemma ends_plain_app (a b : string) : ends_plain b -> ends_plain (a ++ b).
Proof.
  intros [c [Hc Hne]]; exists c; split; [| exact Hne].
  now apply last_char_app_some.
Qed.

Lemma ends_plain_cons (x : ascii) (s : string) :
  x <> "|"%char -> s = "" \/ ends_plain s -> ends_plain (String x s).
Proof.
  intros Hx [-> | Hs]; [exists x; split; [reflexivity | exact Hx] |].
  apply (ends_plain_app (String x "") s Hs).
Qed.

Lemma string_of_uint_plain (d : Decimal.uint) :
  d <> Decimal.Nil -> ends_plain (NilEmpty.string_of_uint d).
Proof.
  induction d as [| d IH | d IH | d IH | d IH | d IH | d IH | d IH | d IH
                  | d IH | d IH]; intros Hd; [now destruct Hd | ..];
    cbn [NilEmpty.string_of_uint];
    (apply ends_plain_cons; [discriminate |]);
    (destruct (Decimal.uint_eq_dec d Decimal.Nil) as [-> | Hnil];
     [left; reflexivity | right; apply IH, Hnil]).
Qed.

(** [%d] ends in a digit. *)
Lemma fmt_d_plain (z : Z) : ends_plain (fmt_d z).
Proof.
  unfold fmt_d.
  assert (Hpos : forall p, ends_plain (NilZero.string_of_uint (Pos.to_uint p))).
  { intros p.
    pose proof (Unsigned.to_uint_nonnil p) as Hp.
    unfold NilZero.string_of_uint.
    destruct (Pos.to_uint p) eqn:Hd; [now destruct Hp | ..];
      apply string_of_uint_plain; discriminate. }
  destruct z as [| p | p]; cbn [Z.to_int NilZero.string_of_int].
  - exists "0"%char; split; [reflexivity | discriminate].
  - apply Hpos.
  - apply (ends_plain_app "-"), Hpos.
Qed.

Lemma describe_plain (c : classification) : ends_plain (describe c).
Proof.
  destruct c; cbn [describe];
    try (eexists; split; [reflexivity | discriminate]).
  apply ends_plain_app, fmt_d_plain.
Qed.

Lemma concat_plain (l : list string) :
  l <> [] -> Forall ends_plain l -> ends_plain (String.concat "|" l).
Proof.
  induction l as [| e rest IH]; intros Hne Hall; [now destruct Hne |].
  inversion Hall as [| ? ? He Hrest]; subst.
  destruct rest as [| e' rest]; [exact He |].
  cbn [String.concat].
  do 2 apply ends_plain_app.
  apply IH; [discriminate | exact Hrest].
Qed.

(** Removing the separator at the end of a buffer leaves a beginning of
    its text. *)
Lemma buf_rmtail_prefix (buf : buffer) (c : ascii) :
  exists rest,
    data buf = BSTR (buf_rmtail buf c) ++ rest
    /\ (String.length (BSTR (buf_rmtail buf c)) <= String.length (data buf))%nat.
Proof.
  unfold buf_rmtail, BSTR.
  destruct (last_char (data buf)) as [x |];
    [destruct (Ascii.eqb x c) |]; cbn [data];
    try (exists ""; split; [now rewrite append_empty_r | lia]).
  destruct (drop_last_prefix (data buf)) as [rest Hrest].
  exists rest; split; [exact Hrest | apply drop_last_length_le].
Qed.

(** ** Extended socket-error interpreter *)

Lemma buffer_eta (buf : buffer) : mk_buffer (capacity buf) (data buf) = buf.
Proof. destruct buf; reflexivity. Qed.

Lemma separated_single (e : string) : separated [e] = e ++ "|".
Proof. cbn [separated]; now rewrite append_empty_r. Qed.

Section TraceProperties.

Context {sys : sys_h}.

Lemma scan_cmsgs_fits (m : msghdr) (e : option sock_extended_err)
      (out : buffer) :
  (String.length (data out) + String.length (separated (cmsg_notes m))
   < capacity out)%nat ->
  scan_cmsgs m e out
  = (match rev (List.filter is_recverr m) with
     | [] => e
     | c :: _ => Some (CMSG_DATA c)
     end,
     mk_buffer (capacity out) (data out ++ separated (cmsg_notes m))).
Proof.
  unfold cmsg_notes.
  revert e out; induction m as [| c m IH]; intros e out Hfit.
  - cbn. now rewrite append_empty_r, buffer_eta.
  - cbn [scan_cmsgs List.filter] in Hfit |- *.
    change (is_recverr c)
      with ((cmsg_level c =? SOL_IP) && (cmsg_type c =? IP_RECVERR)) in *.
    change (is_other_ip c)
      with ((cmsg_level c =? SOL_IP) && negb (cmsg_type c =? IP_RECVERR)) in *.
    destruct (cmsg_level c =? SOL_IP); cbn [andb negb] in Hfit |- *.
    + destruct (cmsg_type c =? IP_RECVERR); cbn [andb negb map] in Hfit |- *.
      * rewrite IH by exact Hfit.
        cbn [rev].
        destruct (rev (List.filter is_recverr m)); reflexivity.
      * cbn [map separated] in Hfit |- *.
        rewrite !length_append in Hfit.
        rewrite buf_printf_fits
          by (rewrite !length_append; cbn [String.length] in *; lia).
        rewrite IH
          by (cbn [data capacity]; rewrite !length_append;
              cbn [String.length] in *; lia).
        cbn [data capacity].
        rewrite !append_assoc; reflexivity.
    + apply IH; exact Hfit.
Qed.

Lemma classify_errno_spec (e : sock_extended_err) (out : buffer) (mtu : Z) :
  classify_errno e out mtu
  = (buf_printf out (describe (classify e) ++ "|"),
     match classify e with
     | TooLarge path_mtu => path_mtu
     | _ => mtu
     end).
Proof.
  unfold classify_errno, classify, switch.
  repeat (destruct (ee_errno e =? _); [reflexivity |]).
  reflexivity.
Qed.

Lemma entry_mtu_last (m : msghdr) (e : sock_extended_err) (mtu : Z) :
  extended_err m = Some e ->
  List.last (entry_mtu m) mtu
  = match classify e with
    | TooLarge path_mtu => path_mtu
    | _ => mtu
    end.
Proof.
  intros He; unfold entry_mtu; rewrite He.
  destruct (classify e); reflexivity.
Qed.

Lemma drain_fits (fd : errqueue) (out : buffer) (mtu : Z) :
  (String.length (data out) + String.length (separated (trace_elements fd))
   < capacity out)%nat ->
  drain fd out mtu
  = (mk_buffer (capacity out) (data out ++ separated (trace_elements fd)),
     List.last (concat (map entry_mtu (received fd))) mtu,
     skipn (List.length (received fd)) fd).
Proof.
  revert out mtu; induction fd as [| m fd IH]; intros out mtu Hfit.
  - cbn. now rewrite append_empty_r, buffer_eta.
  - unfold trace_elements in Hfit |- *.
    cbn [drain received] in Hfit |- *.
    assert (Hnotes : forall rest,
               separated (entry_elements m ++ rest)%list
               = separated (cmsg_notes m)
                 ++ (match extended_err m with
                     | Some e => describe (classify e)
                     | None => "NO-INFO"
                     end ++ "|") ++ separated rest).
    { intros rest; unfold entry_elements.
      rewrite !separated_app, separated_single, append_assoc; reflexivity. }
    destruct (extended_err m) as [e |] eqn:He.
    + cbn [map concat List.length skipn] in Hfit |- *.
      rewrite Hnotes in Hfit |- *.
      rewrite !length_append in Hfit.
      rewrite scan_cmsgs_fits by lia.
      fold (extended_err m); rewrite He.
      rewrite classify_errno_spec.
      rewrite buf_printf_fits
        by (cbn [data capacity]; rewrite !length_append; lia).
      cbn [data capacity].
      rewrite IH
        by (cbn [data capacity]; unfold trace_elements;
            rewrite !length_append; lia).
      cbn [data capacity].
      rewrite last_app_default, (entry_mtu_last m e mtu He).
      unfold trace_elements; rewrite !append_assoc; reflexivity.
    + cbn [map concat List.length skipn] in Hfit |- *.
      rewrite app_nil_r in Hfit |- *.
      specialize (Hnotes []); rewrite app_nil_r in Hnotes.
      rewrite Hnotes in Hfit |- *; cbn [separated] in Hfit |- *.
      rewrite append_empty_r in Hfit |- *.
      rewrite !length_append in Hfit.
      cbn [String.length] in Hfit.
      rewrite scan_cmsgs_fits by lia.
      fold (extended_err m); rewrite He.
      rewrite buf_printf_fits
        by (cbn [data capacity]; rewrite !length_append;
            cbn [String.length]; lia).
      cbn [data capacity].
      unfold entry_mtu; rewrite He.
      rewrite !append_assoc; reflexivity.
Qed.

Lemma received_app (q rest : errqueue) :
  Forall (fun x => extended_err x <> None) q ->
  received (q ++ rest)%list = (q ++ received rest)%list.
Proof.
  induction 1 as [| m q Hm _ IH]; [reflexivity |].
  cbn [app received].
  destruct (extended_err m); [now rewrite IH | now destruct Hm].
Qed.

Lemma concat_map_nil {A B : Type} (g : A -> list B) (l : list A) :
  Forall (fun x => g x = []) l -> concat (map g l) = [].
Proof.
  induction 1 as [| x l Hx _ IH]; [reflexivity |].
  cbn [map concat]; now rewrite Hx, IH.
Qed.

Lemma scan_cmsgs_err (m : msghdr) (e : option sock_extended_err)
      (out : buffer) :
  fst (scan_cmsgs m e out)
  = match rev (List.filter is_recverr m) with
    | [] => e
    | c :: _ => Some (CMSG_DATA c)
    end.
Proof.
  revert e out; induction m as [| c m IH]; intros e out; [reflexivity |].
  cbn [scan_cmsgs List.filter].
  change (is_recverr c)
    with ((cmsg_level c =? SOL_IP) && (cmsg_type c =? IP_RECVERR)).
  destruct (cmsg_level c =? SOL_IP); cbn [andb]; [| apply IH].
  destruct (cmsg_type c =? IP_RECVERR); [| apply IH].
  rewrite IH; cbn [rev].
  destruct (rev (List.filter is_recverr m)); reflexivity.
Qed.

Lemma scan_cmsgs_truncated (k : nat) (written : string) (m : msghdr)
      (e : option sock_extended_err) (out : buffer) :
  capacity out = S k -> data out = truncate k written ->
  snd (scan_cmsgs m e out)
  = mk_buffer (S k) (truncate k (written ++ separated (cmsg_notes m))).
Proof.
  unfold cmsg_notes.
  revert written e out; induction m as [| c m IH]; intros written e out Hcap Hdata.
  - cbn. rewrite append_empty_r, <- Hcap, <- Hdata; symmetry; apply buffer_eta.
  - cbn [scan_cmsgs List.filter].
    change (is_other_ip c)
      with ((cmsg_level c =? SOL_IP) && negb (cmsg_type c =? IP_RECVERR)).
    destruct (cmsg_level c =? SOL_IP); cbn [andb];
      [| apply IH; assumption].
    destruct (cmsg_type c =? IP_RECVERR); cbn [negb map separated];
      [apply IH; assumption |].
    rewrite (buf_printf_truncated k written out _ Hcap Hdata).
    rewrite (IH (written ++ "CMSG=" ++ fmt_d (cmsg_type c) ++ "|"))
      by reflexivity.
    rewrite !append_assoc; reflexivity.
Qed.

Lemma trace_elements_cons (m : msghdr) (fd : errqueue) :
  trace_elements (m :: fd)
  = (cmsg_notes m
     ++ match extended_err m with
        | Some e => describe (classify e) :: trace_elements fd
        | None => ["NO-INFO"]
        end)%list.
Proof.
  unfold trace_elements; cbn [received].
  destruct (extended_err m) as [e |] eqn:He; cbn [map concat];
    unfold entry_elements at 1; rewrite He.
  - rewrite <- app_assoc; reflexivity.
  - apply app_nil_r.
Qed.

Lemma drain_truncated (k : nat) (fd : errqueue) (written : string)
      (out : buffer) (mtu : Z) :
  capacity out = S k -> data out = truncate k written ->
  fst (fst (drain fd out mtu))
  = mk_buffer (S k) (truncate k (written ++ separated (trace_elements fd))).
Proof.
  revert written out mtu; induction fd as [| m fd IH];
    intros written out mtu Hcap Hdata.
  - cbn. rewrite append_empty_r, <- Hcap, <- Hdata; symmetry; apply buffer_eta.
  - rewrite trace_elements_cons; cbn [drain].
    pose proof (scan_cmsgs_err m None out) as Herr.
    pose proof (scan_cmsgs_truncated k written m None out Hcap Hdata) as Hout.
    fold (extended_err m) in Herr.
    destruct (scan_cmsgs m None out) as [e out1]; cbn [fst snd] in Herr, Hout.
    subst e out1.
    destruct (extended_err m) as [e |].
    + rewrite classify_errno_spec.
      rewrite (buf_printf_truncated k (written ++ separated (cmsg_notes m))
                 (mk_buffer (S k) _) _ eq_refl eq_refl).
      rewrite (IH ((written ++ separated (cmsg_notes m))
                   ++ describe (classify e) ++ "|")%string)
        by reflexivity.
      rewrite separated_app; cbn [separated].
      rewrite !append_assoc; reflexivity.
    + cbn [fst].
      rewrite (buf_printf_truncated k (written ++ separated (cmsg_notes m))
                 (mk_buffer (S k) _) _ eq_refl eq_refl).
      rewrite separated_app, separated_single, !append_assoc.
      reflexivity.
Qed.

Lemma drain_mtu_rest (fd : errqueue) (out : buffer) (mtu : Z) :
  snd (fst (drain fd out mtu))
  = List.last (concat (map entry_mtu (received fd))) mtu
  /\ snd (drain fd out mtu) = skipn (List.length (received fd)) fd.
Proof.
  revert out mtu; induction fd as [| m fd IH]; intros out mtu;
    [split; reflexivity |].
  cbn [drain received].
  pose proof (scan_cmsgs_err m None out) as Herr.
  fold (extended_err m) in Herr.
  destruct (scan_cmsgs m None out) as [e out1]; cbn [fst] in Herr; subst e.
  destruct (extended_err m) as [e |] eqn:He.
  - rewrite classify_errno_spec.
    cbn [map concat List.length skipn].
    rewrite last_app_default, (entry_mtu_last m e mtu He).
    apply IH.
  - cbn [fst snd map concat List.length skipn].
    unfold entry_mtu; rewrite He; split; reflexivity.
Qed.

Lemma entry_elements_plain (m : msghdr) :
  Forall ends_plain (entry_elements m).
Proof.
  unfold entry_elements, cmsg_notes.
  apply Forall_app; split.
  - induction (List.filter is_other_ip m) as [| c l IH]; cbn [map];
      constructor; [apply ends_plain_app, fmt_d_plain | exact IH].
  - constructor; [| constructor].
    destruct (extended_err m); [apply describe_plain |].
    eexists; split; [reflexivity | discriminate].
Qed.

Lemma trace_elements_plain (fd : errqueue) :
  Forall ends_plain (trace_elements fd).
Proof.
  unfold trace_elements.
  induction (received fd) as [| m ms IH]; [constructor |].
  cbn [map concat]; apply Forall_app; split;
    [apply entry_elements_plain | exact IH].
Qed.

(** The description in closed form: what a buffer of 256 bytes keeps of
    the text written, without a separator at its end. *)
Lemma description_closed (fd : errqueue) :
  fst (fst (format_extended_socket_error fd))
  = BSTR (buf_rmtail
            (mk_buffer 256 (truncate 255 (separated (trace_elements fd)))) "|").
Proof.
  unfold format_extended_socket_error.
  pose proof (drain_truncated 255 fd "" (alloc_buf_gc 256) 0 eq_refl eq_refl)
    as Hout.
  destruct (drain fd (alloc_buf_gc 256) 0) as [[out mtu] rest].
  cbn [fst snd] in *; subst out; reflexivity.
Qed.

(** A trace of at most 255 characters is returned whole: one of 255
    characters fills the buffer, its last separator is not written, and
    there is none to remove. *)
Lemma description_whole (fd : errqueue) :
  (String.length (expected_trace fd) <= 255)%nat ->
  fst (fst (format_extended_socket_error fd)) = expected_trace fd.
Proof.
  intros Hfit; rewrite description_closed.
  pose proof (trace_elements_plain fd) as Hplain.
  unfold expected_trace in *.
  destruct (trace_elements fd) as [| e els] eqn:Hels; [reflexivity |].
  rewrite separated_concat by discriminate.
  destruct (concat_plain (e :: els) ltac:(discriminate) Hplain)
    as [c [Hlast Hc]].
  set (full := String.concat "|" (e :: els)) in *.
  unfold buf_rmtail, BSTR; cbn [data capacity].
  destruct (Nat.eq_dec (String.length full) 255%nat) as [Heq | Hne].
  - rewrite truncate_app_short by lia.
    rewrite truncate_all by lia.
    rewrite Hlast.
    destruct (Ascii.eqb c "|") eqn:Hbar; [| reflexivity].
    apply Ascii.eqb_eq in Hbar; now destruct Hc.
  - rewrite truncate_all by (rewrite length_append; cbn [String.length]; lia).
    rewrite last_char_append_char, Ascii.eqb_refl, drop_last_append_char.
    reflexivity.
Qed.

(** C9 (amended): [*mtu] is the [ee_info], as an [int], of the last
    received entry classified as [EMSGSIZE], and 0 when there is none; the
    queue keeps the entries that were not received.  When the trace is at
    most 255 characters long, which is what the output buffer of 256 bytes
    holds, the description is the trace: the trace elements of the received
    entries in receipt order, joined by '|'.  A longer trace is cut: the
    description is then a beginning of the trace, of at most 255
    characters.  The first entry without metadata ends the drain: it is
    the last one received, the trace ends with "NO-INFO", it reports no
    MTU, and the entries behind it stay in the queue. *)
Theorem format_extended_socket_error_trace (fd : errqueue) :
  exists description : string,
    format_extended_socket_error fd
    = (description, discovered_mtu (received fd),
       skipn (List.length (received fd)) fd)
    /\ ((String.length (expected_trace fd) <= 255)%nat ->
        description = expected_trace fd)
    /\ (exists rest, expected_trace fd = description ++ rest)
    /\ (String.length description <= 255)%nat
    /\ (forall (q1 : errqueue) (m : msghdr) (q2 : errqueue),
          fd = (q1 ++ m :: q2)%list ->
          Forall (fun x => extended_err x <> None) q1 ->
          extended_err m = None ->
          received fd = (q1 ++ [m])%list
          /\ trace_elements fd
             = (concat (map entry_elements q1) ++ cmsg_notes m
                ++ ["NO-INFO"])%list
          /\ discovered_mtu (received fd) = discovered_mtu q1
          /\ skipn (List.length (received fd)) fd = q2)
    /\ (Forall (fun x => extended_err x <> None) fd -> received fd = fd)
    /\ (forall (before : list msghdr) (m : msghdr) (after : list msghdr)
               (e : sock_extended_err) (path_mtu : Z),
          received fd = (before ++ m :: after)%list ->
          extended_err m = Some e ->
          classify e = TooLarge path_mtu ->
          Forall (fun x => entry_mtu x = []) after ->
          path_mtu = int_wrap (ee_info e)
          /\ discovered_mtu (received fd) = path_mtu)
    /\ (Forall (fun x => entry_mtu x = []) (received fd) ->
        discovered_mtu (received fd) = 0).
Proof.
  exists (fst (fst (format_extended_socket_error fd))).
  split; [| split; [| split; [| split; [| split; [| split; [| split]]]]]].
  - pose proof (drain_mtu_rest fd (alloc_buf_gc 256) 0) as [Hmtu Hrest].
    unfold format_extended_socket_error in *.
    destruct (drain fd (alloc_buf_gc 256) 0) as [[out mtu] rest].
    cbn [fst snd] in *; subst mtu rest; reflexivity.
  - apply description_whole.
  - destruct (Nat.le_gt_cases (String.length (expected_trace fd)) 255)
      as [Hfit | Hlong].
    { exists ""; rewrite (description_whole fd Hfit); symmetry.
      apply append_empty_r. }
    rewrite description_closed.
    destruct (buf_rmtail_prefix
                (mk_buffer 256 (truncate 255 (separated (trace_elements fd))))
                "|") as [r2 [Hr2 _]].
    cbn [data] in Hr2.
    unfold expected_trace in *.
    destruct (trace_elements fd) as [| e els]; [cbn in Hlong; lia |].
    rewrite separated_concat in * by discriminate.
    rewrite truncate_app_short in * by lia.
    destruct (truncate_prefix 255 (String.concat "|" (e :: els)))
      as [r1 Hr1].
    exists (r2 ++ r1); rewrite <- append_assoc, <- Hr2; exact Hr1.
  - rewrite description_closed.
    destruct (buf_rmtail_prefix
                (mk_buffer 256 (truncate 255 (separated (trace_elements fd))))
                "|") as [r2 [_ Hlen]].
    cbn [data] in Hlen.
    pose proof (truncate_length_le 255 (separated (trace_elements fd))); lia.
  - intros q1 m q2 -> Hq1 Hm.
    assert (Hrec : received (q1 ++ m :: q2)%list = (q1 ++ [m])%list).
    { rewrite (received_app q1 (m :: q2) Hq1); cbn [received].
      now rewrite Hm. }
    rewrite Hrec.
    split; [reflexivity |].
    split.
    { unfold trace_elements; rewrite Hrec, map_app, concat_app.
      cbn [map concat]; unfold entry_elements at 2; rewrite Hm.
      now rewrite app_nil_r. }
    split.
    { unfold discovered_mtu; rewrite map_app, concat_app.
      cbn [map concat]; unfold entry_mtu at 2; rewrite Hm.
      now rewrite !app_nil_r. }
    replace (q1 ++ m :: q2)%list with ((q1 ++ [m]) ++ q2)%list
      by (now rewrite <- app_assoc).
    apply drop_app_length.
  - intros Hall.
    rewrite <- (app_nil_r fd) at 1.
    rewrite (received_app fd [] Hall); cbn [received]; apply app_nil_r.
  - intros before m after e path_mtu Hrec He Hcls Hafter.
    split.
    { revert Hcls; unfold classify, switch.
      repeat (destruct (ee_errno e =? _); [congruence |]).
      discriminate. }
    unfold discovered_mtu; rewrite Hrec, map_app, concat_app.
    cbn [map concat].
    rewrite (concat_map_nil entry_mtu after Hafter), app_nil_r.
    unfold entry_mtu at 2; rewrite He, Hcls.
    apply last_last.
  - intros Hnone.
    unfold discovered_mtu.
    now rewrite (concat_map_nil entry_mtu _ Hnone).
Qed.

End TraceProperties.

Lemma format_extended_socket_error_trace_witness :
  (String.length (@expected_trace linux queue_three) <= 255)%nat
  /\ @format_extended_socket_error linux queue_three
     = ("ETIMEDOUT|EMSGSIZE Path-MTU=1400|EHOSTUNREACH", 1400, []).
Proof.
  assert (Hfit : (String.length (@expected_trace linux queue_three) <= 255)%nat)
    by (vm_compute; lia).
  split; [exact Hfit |].
  destruct (@format_extended_socket_error_trace linux queue_three)
    as [description [Hresult [Hwhole _]]].
  rewrite Hresult, (Hwhole Hfit); reflexivity.
Defined.

(** C9, as stated, fails on a long queue: of twenty entries classified as
    host unreachable, all received, the trace of 259 characters is cut to
    the 255 the buffer holds, and the classification of the last entry is
    not in the description. *)
Lemma format_extended_socket_error_truncated :
  @format_extended_socket_error linux queue_twenty
  = (separated (repeat "EHOSTUNREACH" 19) ++ "EHOSTUNR", 0, [])
  /\ @expected_trace linux queue_twenty
     = separated (repeat "EHOSTUNREACH" 19) ++ "EHOSTUNREACH"
  /\ @received linux queue_twenty = queue_twenty.
Proof.
  split; [vm_compute; reflexivity |].
  split; vm_compute; reflexivity.
Qed.

(** An entry without metadata alone: the trace is "NO-INFO" and no MTU is
    discovered. *)
Example format_extended_socket_error_no_info :
  @format_extended_socket_error linux [entry_no_info; entry 90 1400]
  = ("NO-INFO", 0, [entry 90 1400]).
Proof. reflexivity. Qed.

(** A trace of exactly 255 characters is returned whole. *)
Example format_extended_socket_error_full_buffer :
  String.length (@expected_trace linux queue_full) = 255%nat
  /\ @format_extended_socket_error linux queue_full
     = (@expected_trace linux queue_full, 0, []).
Proof. split; vm_compute; reflexivity. Qed.

(** When the text is cut behind a separator, the separator is removed as
    well: of a trace of 262 characters, 254 are returned. *)
Example format_extended_socket_error_separator_last :
  String.length (@expected_trace linux queue_separator_last) = 262%nat
  /\ @format_extended_socket_error linux queue_separator_last
     = (separated (repeat "UNKNOWN" 31) ++ "EPROTO", 0, []).
Proof. split; vm_compute; reflexivity. Qed.

(* ================================================================== *)
(** * Further properties of the code *)

(** ** Dynamic MTU controller *)

Section ControllerProperties.

Context {hdr : mtu_h}.

(** X1: [frame_set_mtu_dynamic] returns exactly when the requested [mtu] is
    not negative; a negative request fails the [ASSERT] of its first
    statement before anything is logged or stored, whatever the flags. *)
Theorem frame_set_mtu_dynamic_contract
        (f : frame) (mtu flags : Z) (log : list message) :
  (is_returns (ended (frame_set_mtu_dynamic f mtu flags log)) = true
   <-> 0 <= mtu)
  /\ (mtu < 0 ->
      frame_set_mtu_dynamic f mtu flags log = (log, AssertFailed "mtu >= 0")).
Proof.
  destruct (Z.lt_ge_cases mtu 0) as [Hneg | Hpos].
  - rewrite (frame_set_mtu_dynamic_negative f mtu flags log Hneg).
    cbn [ended snd is_returns].
    split; [split; [discriminate | lia] | reflexivity].
  - rewrite (frame_set_mtu_dynamic_run f mtu flags log Hpos).
    cbn [ended snd is_returns].
    split; [split; [intros _; exact Hpos | reflexivity] | lia].
Qed.

Lemma adjusted_mtu_dynamic (f : frame) (mtu flags d : Z) :
  mtu_h_spec hdr ->
  adjusted_mtu (set_link_mtu_dynamic f d) mtu flags = adjusted_mtu f mtu flags.
Proof.
  intros Hspec; unfold adjusted_mtu.
  destruct (flag_set flags SET_MTU_TUN); [| reflexivity].
  f_equal; apply (TUN_LINK_DELTA_extras Hspec); reflexivity.
Qed.

(** X2: the controller is idempotent: a second call with the same request
    and flags leaves the frame the first call gave. *)
Theorem frame_set_mtu_dynamic_idempotent
        (f : frame) (mtu flags : Z) (log : list message) :
  mtu_h_spec hdr ->
  0 <= mtu ->
  exists log1 f1 log2,
    frame_set_mtu_dynamic f mtu flags log = (log1, Returns f1)
    /\ frame_set_mtu_dynamic f1 mtu flags log1 = (log2, Returns f1).
Proof.
  intros Hspec Hmtu.
  pose (f1 := if stores f mtu flags
              then set_link_mtu_dynamic f
                     (constrain_int (adjusted_mtu f mtu flags)
                                    (EXPANDED_SIZE_MIN f) (EXPANDED_SIZE f))
              else f).
  assert (Hfix : (if stores f1 mtu flags
                  then set_link_mtu_dynamic f1
                         (constrain_int (adjusted_mtu f1 mtu flags)
                                        (EXPANDED_SIZE_MIN f1) (EXPANDED_SIZE f1))
                  else f1) = f1).
  { subst f1.
    destruct (stores f mtu flags) eqn:Hst; [| now rewrite Hst].
    rewrite (adjusted_mtu_dynamic f mtu flags _ Hspec),
      (EXPANDED_SIZE_MIN_static Hspec), (EXPANDED_SIZE_static Hspec).
    match goal with
    | |- (if ?c then _ else _) = _ => destruct c
    end; reflexivity. }
  exists (log ++ [mtu_dynamic_line mtu flags (link_mtu_dynamic f)
                                   (link_mtu_dynamic f1)])%list, f1.
  eexists; split; [apply frame_set_mtu_dynamic_run; exact Hmtu |].
  rewrite frame_set_mtu_dynamic_run by exact Hmtu.
  cbv zeta; rewrite Hfix; reflexivity.
Qed.

(** X3: with [SET_MTU_UPPER_BOUND] the dynamic value never grows, as long
    as it is not below the floor and the floor is not above the ceiling. *)
Theorem frame_set_mtu_dynamic_never_grows
        (f : frame) (mtu flags : Z) (log : list message) :
  mtu_h_spec hdr ->
  0 <= mtu ->
  flag_set flags SET_MTU_UPPER_BOUND = true ->
  EXPANDED_SIZE_MIN f <= EXPANDED_SIZE f ->
  EXPANDED_SIZE_MIN f <= link_mtu_dynamic f ->
  exists log' f',
    frame_set_mtu_dynamic f mtu flags log = (log', Returns f')
    /\ link_mtu_dynamic f' <= link_mtu_dynamic f.
Proof.
  intros Hspec Hmtu Hflag Hle Hfloor.
  eexists; eexists; split; [apply frame_set_mtu_dynamic_run; exact Hmtu |].
  unfold stores; rewrite Hflag; cbn [negb orb].
  destruct (adjusted_mtu f mtu flags <? link_mtu_dynamic f) eqn:Hlt;
    [| lia].
  apply Z.ltb_lt in Hlt.
  cbn [link_mtu_dynamic set_link_mtu_dynamic].
  rewrite (constrain_int_clamp Hspec) by exact Hle; lia.
Qed.

(** X4: a stored request that lies between floor and ceiling is stored as
    it is, after the [SET_MTU_TUN] adjustment. *)
Theorem frame_set_mtu_dynamic_exact
        (f : frame) (mtu flags : Z) (log : list message) :
  mtu_h_spec hdr ->
  0 <= mtu ->
  stores f mtu flags = true ->
  EXPANDED_SIZE_MIN f <= adjusted_mtu f mtu flags <= EXPANDED_SIZE f ->
  exists log' f',
    frame_set_mtu_dynamic f mtu flags log = (log', Returns f')
    /\ link_mtu_dynamic f' = adjusted_mtu f mtu flags.
Proof.
  intros Hspec Hmtu Hst Hin.
  eexists; eexists; split; [apply frame_set_mtu_dynamic_run; exact Hmtu |].
  rewrite Hst; cbn [link_mtu_dynamic set_link_mtu_dynamic].
  rewrite (constrain_int_clamp Hspec) by lia; lia.
Qed.

End ControllerProperties.

Lemma frame_set_mtu_dynamic_idempotent_witness :
  0 <= 1400
  /\ exists log1 f1 log2,
       @frame_set_mtu_dynamic mtu_h_model frame_1500 1400 2 []
       = (log1, Returns f1)
       /\ @frame_set_mtu_dynamic mtu_h_model f1 1400 2 log1
          = (log2, Returns f1).
Proof.
  assert (Hmtu : 0 <= 1400) by lia.
  split; [exact Hmtu |].
  exact (@frame_set_mtu_dynamic_idempotent mtu_h_model frame_1500 1400 2 []
           mtu_h_model_spec Hmtu).
Defined.

Lemma frame_set_mtu_dynamic_never_grows_witness :
  (0 <= 9000 /\ 140 <= 1500)
  /\ exists log' f',
       @frame_set_mtu_dynamic mtu_h_model frame_1500 9000 2 []
       = (log', Returns f')
       /\ link_mtu_dynamic f' <= 1500.
Proof.
  assert (Hmtu : 0 <= 9000) by lia.
  assert (Hle : @EXPANDED_SIZE_MIN mtu_h_model frame_1500
                <= @EXPANDED_SIZE mtu_h_model frame_1500)
    by (vm_compute; discriminate).
  assert (Hfloor : @EXPANDED_SIZE_MIN mtu_h_model frame_1500
                   <= link_mtu_dynamic frame_1500)
    by (vm_compute; discriminate).
  split; [split; lia |].
  exact (@frame_set_mtu_dynamic_never_grows mtu_h_model frame_1500 9000 2 []
           mtu_h_model_spec Hmtu eq_refl Hle Hfloor).
Defined.

Lemma frame_set_mtu_dynamic_exact_witness :
  (0 <= 1360 /\ 140 <= 1400 <= 1500)
  /\ exists log' f',
       @frame_set_mtu_dynamic mtu_h_model frame_1500 1360 1 []
       = (log', Returns f')
       /\ link_mtu_dynamic f' = 1400.
Proof.
  assert (Hmtu : 0 <= 1360) by lia.
  assert (Hin : @EXPANDED_SIZE_MIN mtu_h_model frame_1500
                <= @adjusted_mtu mtu_h_model frame_1500 1360 1
                <= @EXPANDED_SIZE mtu_h_model frame_1500)
    by (vm_compute; split; discriminate).
  split; [split; lia |].
  exact (@frame_set_mtu_dynamic_exact mtu_h_model frame_1500 1360 1 []
           mtu_h_model_spec Hmtu eq_refl Hin).
Defined.

(** ** Overhead redistribution *)

Lemma int_wrap_sub_l (a b : Z) : int_wrap (int_wrap a - b) = int_wrap (a - b).
Proof.
  replace (int_wrap a - b) with (int_wrap a + - b) by lia.
  rewrite int_wrap_add_l; f_equal; lia.
Qed.

(** X5: two redistributions into the same frame commute: taking the
    overhead of [s1] and then that of [s2] leaves the store that taking
    them in the other order leaves, and the frame has lost to [extra_tun]
    the [int] sum of both. *)
Theorem frame_subtract_extra_commute
        (m : store) (fp s1 s2 : nat) (f a b : frame) :
  fp <> s1 -> fp <> s2 ->
  m !! fp = Some f -> m !! s1 = Some a -> m !! s2 = Some b ->
  exists m1 m2 m' f',
    frame_subtract_extra fp s1 m = Some m1
    /\ frame_subtract_extra fp s2 m1 = Some m'
    /\ frame_subtract_extra fp s2 m = Some m2
    /\ frame_subtract_extra fp s1 m2 = Some m'
    /\ m' !! fp = Some f'
    /\ extra_frame f' = int_wrap (extra_frame f - extra_frame a - extra_frame b)
    /\ extra_tun f' = int_wrap (extra_tun f + extra_frame a + extra_frame b).
Proof.
  intros Hn1 Hn2 Hf Ha Hb.
  pose proof (frame_subtract_extra_distinct m fp s1 f a Hn1 Hf Ha) as H1.
  pose proof (frame_subtract_extra_distinct m fp s2 f b Hn2 Hf Hb) as H2.
  rewrite insert_insert_eq in H1, H2.
  set (g1 := set_extra_tun
               (set_extra_frame f (int_sub (extra_frame f) (extra_frame a)))
               (int_add (extra_tun f) (extra_frame a))) in H1.
  set (g2 := set_extra_tun
               (set_extra_frame f (int_sub (extra_frame f) (extra_frame b)))
               (int_add (extra_tun f) (extra_frame b))) in H2.
  assert (H12 := frame_subtract_extra_distinct (<[fp:=g1]> m) fp s2 g1 b Hn2).
  rewrite lookup_insert_eq, lookup_insert_ne in H12 by exact Hn2.
  specialize (H12 eq_refl Hb); rewrite !insert_insert_eq in H12.
  assert (H21 := frame_subtract_extra_distinct (<[fp:=g2]> m) fp s1 g2 a Hn1).
  rewrite lookup_insert_eq, lookup_insert_ne in H21 by exact Hn1.
  specialize (H21 eq_refl Ha); rewrite !insert_insert_eq in H21.
  assert (Hsame :
            set_extra_tun
              (set_extra_frame g2 (int_sub (extra_frame g2) (extra_frame a)))
              (int_add (extra_tun g2) (extra_frame a))
            = set_extra_tun
                (set_extra_frame g1 (int_sub (extra_frame g1) (extra_frame b)))
                (int_add (extra_tun g1) (extra_frame b))).
  { subst g1 g2; unfold set_extra_tun, set_extra_frame, int_sub, int_add.
    cbn [link_mtu link_mtu_dynamic extra_frame extra_buffer extra_tun
         extra_link].
    rewrite !int_wrap_sub_l, !int_wrap_add_l.
    f_equal; f_equal; lia. }
  rewrite Hsame in H21.
  eexists; eexists; eexists; eexists.
  split; [exact H1 |]. split; [exact H12 |].
  split; [exact H2 |]. split; [exact H21 |].
  split; [apply lookup_insert_eq |].
  subst g1; unfold set_extra_tun, set_extra_frame, int_sub, int_add.
  cbn [extra_frame extra_tun].
  rewrite int_wrap_sub_l, int_wrap_add_l; split; reflexivity.
Qed.

Lemma frame_subtract_extra_commute_witness :
  (1%nat <> 2%nat
   /\ store_two !! 1%nat = Some frame_fragment
   /\ store_two !! 2%nat = Some frame_omit)
  /\ exists m1 m2 m' f',
       frame_subtract_extra 1 2 store_two = Some m1
       /\ frame_subtract_extra 1 2 m1 = Some m'
       /\ frame_subtract_extra 1 2 store_two = Some m2
       /\ frame_subtract_extra 1 2 m2 = Some m'
       /\ m' !! 1%nat = Some f'
       /\ extra_frame f' = 2
       /\ extra_tun f' = 13.
Proof.
  assert (Hne : 1%nat <> 2%nat) by discriminate.
  assert (Hf : store_two !! 1%nat = Some frame_fragment) by reflexivity.
  assert (Hs : store_two !! 2%nat = Some frame_omit) by reflexivity.
  split; [repeat split; assumption |].
  exact (frame_subtract_extra_commute store_two 1 2 2 frame_fragment
           frame_omit frame_omit Hne Hne Hf Hs Hs).
Defined.

(** X6: a source without frame overhead changes nothing: when
    [src.extra_frame] is 0 and the two fields of the frame are [int]
    values, the store after the call is the store before it, also when
    [src] is the frame itself. *)
Theorem frame_subtract_extra_zero
        (m : store) (fp src : nat) (f s : frame) :
  m !! fp = Some f -> m !! src = Some s ->
  extra_frame s = 0 ->
  int_range (extra_frame f) -> int_range (extra_tun f) ->
  frame_subtract_extra fp src m = Some m.
Proof.
  intros Hf Hs Hzero Hef Het.
  assert (Hback :
            set_extra_tun (set_extra_frame f (int_sub (extra_frame f) 0))
                          (int_add (extra_tun f) 0) = f).
  { unfold int_sub, int_add.
    rewrite Z.sub_0_r, Z.add_0_r, (int_wrap_id _ Hef), (int_wrap_id _ Het).
    destruct f; reflexivity. }
  destruct (decide (fp = src)) as [-> | Hne].
  - assert (s = f) by congruence; subst s.
    rewrite (frame_subtract_extra_same m src f Hf).
    rewrite insert_insert_eq, int_sub_diag.
    assert (Hself : set_extra_tun (set_extra_frame f 0)
                                  (int_add (extra_tun f) 0) = f).
    { transitivity
        (set_extra_tun (set_extra_frame f (int_sub (extra_frame f) 0))
                       (int_add (extra_tun f) 0)); [| exact Hback].
      unfold int_sub; rewrite Hzero; reflexivity. }
    rewrite Hself, insert_id by exact Hf; reflexivity.
  - rewrite (frame_subtract_extra_distinct m fp src f s Hne Hf Hs).
    rewrite insert_insert_eq, Hzero, Hback.
    rewrite insert_id by exact Hf; reflexivity.
Qed.

Lemma frame_subtract_extra_zero_witness :
  (store_zero_src !! 1%nat = Some frame_fragment
   /\ store_zero_src !! 2%nat = Some frame_zero
   /\ extra_frame frame_zero = 0)
  /\ frame_subtract_extra 1 2 store_zero_src = Some store_zero_src.
Proof.
  assert (Hf : store_zero_src !! 1%nat = Some frame_fragment) by reflexivity.
  assert (Hs : store_zero_src !! 2%nat = Some frame_zero) by reflexivity.
  split; [repeat split; assumption |].
  apply (frame_subtract_extra_zero store_zero_src 1 2 frame_fragment
           frame_zero Hf Hs eq_refl); vm_compute; split; discriminate.
Defined.

(** ** Overhead calculators *)

Lemma to_size_t_idem_add_l (a b : Z) :
  to_size_t (to_size_t a + b) = to_size_t (a + b).
Proof. unfold to_size_t; apply Zplus_mod_idemp_l. Qed.

Lemma to_size_t_idem_add_r (a b : Z) :
  to_size_t (a + to_size_t b) = to_size_t (a + b).
Proof. unfold to_size_t; apply Zplus_mod_idemp_r. Qed.

Lemma to_size_t_idem (a : Z) : to_size_t (to_size_t a) = to_size_t a.
Proof. unfold to_size_t; apply Z.mod_mod; lia. Qed.

Lemma to_uint_range (z : Z) : 0 <= to_uint z < 2 ^ 32.
Proof. unfold to_uint; apply Z.mod_pos_bound; lia. Qed.

Lemma to_uint_small (z : Z) : 0 <= z < 2 ^ 32 -> to_uint z = z.
Proof. intros Hz; unfold to_uint; apply Z.mod_small; exact Hz. Qed.

Section CalculatorProperties.

Context {env : overhead_env}.

(** X7: the payload overhead without [extra_tun] is at most 5 bytes (1 for
    a compression header, 4 for a fragment header); asking for [extra_tun]
    adds it to that, as a [size_t], and exactly when [extra_tun] is not
    negative. *)
Theorem frame_calculate_payload_overhead_parts (f : frame) (o : options) :
  0 <= frame_calculate_payload_overhead f o false <= 5
  /\ frame_calculate_payload_overhead f o true
     = to_size_t (extra_tun f + frame_calculate_payload_overhead f o false)
  /\ (0 <= extra_tun f <= INT_MAX ->
      frame_calculate_payload_overhead f o true
      = extra_tun f + frame_calculate_payload_overhead f o false).
Proof.
  unfold frame_calculate_payload_overhead, INT_MAX.
  set (c := USE_COMP && _).
  set (g := ENABLE_FRAGMENT && _).
  generalize (extra_tun f); intros et.
  assert (Hbase :
            (if g then size_add (if c then size_add 0 1 else 0) 4
             else if c then size_add 0 1 else 0)
            = (if c then 1 else 0) + (if g then 4 else 0))
    by (destruct c, g; reflexivity).
  rewrite Hbase.
  assert (Hwith :
            (if g
             then size_add (if c then size_add (size_add 0 (to_size_t et)) 1
                            else size_add 0 (to_size_t et)) 4
             else if c then size_add (size_add 0 (to_size_t et)) 1
                  else size_add 0 (to_size_t et))
            = to_size_t (et + ((if c then 1 else 0) + (if g then 4 else 0)))).
  { destruct c, g; unfold size_add;
      do 3 (rewrite ?Z.add_0_l, <- ?Z.add_assoc, ?to_size_t_idem_add_l,
              ?to_size_t_idem);
      f_equal; lia. }
  rewrite Hwith.
  split; [destruct c, g; lia |].
  split; [reflexivity |].
  intros Het; apply to_size_t_small.
  destruct c, g; lia.
Qed.

(** X8: for a tun MTU and an [extra_tun] that are not negative, the payload
    size is exactly their sum plus the payload overhead; when it fits an
    [unsigned int] it is what [calc_options_string_link_mtu] returns, with
    nothing logged, when neither TLS nor a secret is configured. *)
Theorem frame_calculate_payload_size_exact
        (f : frame) (o : options) (log : list message) :
  0 <= tun_mtu (ce o) <= INT_MAX ->
  0 <= extra_tun f <= INT_MAX ->
  let size :=
    tun_mtu (ce o) + extra_tun f + frame_calculate_payload_overhead f o false in
  frame_calculate_payload_size f o = size
  /\ (crypto_configured o = false -> size < 2 ^ 32 ->
      calc_options_string_link_mtu o f log = (log, Returns size)).
Proof.
  intros Hmtu Het size; subst size.
  destruct (frame_calculate_payload_overhead_parts f o) as (Hbase & _ & Hexact).
  specialize (Hexact Het).
  unfold INT_MAX in *.
  assert (Hsize : frame_calculate_payload_size f o
                  = tun_mtu (ce o) + extra_tun f
                    + frame_calculate_payload_overhead f o false).
  { unfold frame_calculate_payload_size, size_add.
    rewrite Hexact, to_size_t_idem_add_l, to_size_t_small; lia. }
  split; [exact Hsize |].
  intros Hconf Hfits.
  unfold calc_options_string_link_mtu, crypto_configured in *.
  destruct (tls_client o), (tls_server o), (shared_secret_file o);
    try discriminate Hconf.
  cbn [negb andb]; unfold ret.
  rewrite Hsize, to_uint_small by lia; reflexivity.
Qed.

(** X9: without TLS mode the protocol header size does not depend on
    [use_peer_id] nor on the cipher mode: it is the proxy and stream bytes
    plus the crypto overhead asked for with the long packet-id form. *)
Theorem frame_calculate_protocol_header_size_non_tls
        (kt : key_type) (o : options) (payload_size : Z) (occ : bool) :
  crypto_overhead_uint env ->
  tls_server o = false -> tls_client o = false ->
  frame_calculate_protocol_header_size kt o payload_size occ
  = proxy_bytes o + stream_bytes o
    + calculate_crypto_overhead kt (replay o) true payload_size occ.
Proof.
  intros Hc Hs Hcl.
  rewrite (header_size_sum kt o payload_size occ Hc).
  unfold opcode_bytes, crypto_bytes; rewrite Hs, Hcl; cbn [orb negb].
  lia.
Qed.

(** X10: the protocol header size is at least the crypto overhead and at
    most 16 bytes more. *)
Theorem frame_calculate_protocol_header_size_bounds
        (kt : key_type) (o : options) (payload_size : Z) (occ : bool) :
  crypto_overhead_uint env ->
  crypto_bytes kt o payload_size occ
  <= frame_calculate_protocol_header_size kt o payload_size occ
  <= crypto_bytes kt o payload_size occ + 16.
Proof.
  intros Hc.
  rewrite (header_size_sum kt o payload_size occ Hc).
  unfold proxy_bytes, stream_bytes, opcode_bytes.
  destruct (socks_proxy_server (ce o)), (proto_is_udp (proto (ce o))),
    (proto_is_tcp (proto (ce o))), (tls_server o || tls_client o),
    (use_peer_id o); lia.
Qed.

(** X11: with TLS mode or a secret configured and a cipher name other than
    "BF-CBC", the key type is made from the configured cipher and
    authentication names, and the total is the payload plus the protocol
    header size for that key type; the call logs nothing of its own and
    ends as [init_key_type] ends. *)
Theorem calc_options_string_link_mtu_cipher
        (o : options) (f : frame) (log : list message) :
  cstring (ciphername o) ->
  ciphername o <> "BF-CBC" ->
  crypto_configured o = true ->
  calc_options_string_link_mtu o f log
  = (occ_kt <<- init_key_type (ciphername o) (authname o) true false ;;
     ret (uint_add (to_uint (frame_calculate_payload_size f o))
                   (to_uint (frame_calculate_protocol_header_size
                               occ_kt o 0 true)))) log.
Proof.
  intros Hname Hne Hconf.
  assert (Hlit : cstring "BF-CBC") by (cbn; repeat split; discriminate).
  unfold calc_options_string_link_mtu, crypto_configured in *.
  rewrite (strcmp_eqb (ciphername o) "BF-CBC" Hname Hlit Hne).
  destruct (tls_client o), (tls_server o), (shared_secret_file o);
    try discriminate Hconf; cbn [negb andb];
    unfold bind;
    destruct (init_key_type (ciphername o) (authname o) true false log)
      as [log' [kt | expr |]]; try reflexivity;
    unfold ret, size_add; cbn [Z.add];
    rewrite to_uint_of_size_t; reflexivity.
Qed.

(** X12: a total that [calc_options_string_link_mtu] returns is an
    [unsigned int], and the call reads nothing of the frame but
    [extra_tun]. *)
Theorem calc_options_string_link_mtu_range
        (o : options) (f g : frame) (log : list message) :
  (forall (log' : list message) (total : Z),
      calc_options_string_link_mtu o f log = (log', Returns total) ->
      0 <= total < 2 ^ 32)
  /\ (extra_tun f = extra_tun g ->
      calc_options_string_link_mtu o f log
      = calc_options_string_link_mtu o g log).
Proof.
  split.
  - intros log' total.
    unfold calc_options_string_link_mtu.
    destruct (negb (tls_client o) && negb (tls_server o)
              && match shared_secret_file o with
                 | Some _ => false
                 | None => true
                 end).
    + unfold ret; intros [= _ <-]; apply to_uint_range.
    + destruct (strcmp (ciphername o) "BF-CBC" =? 0); unfold bind;
        match goal with
        | |- context [init_key_type ?a ?b ?c ?d log] =>
            destruct (init_key_type a b c d log) as [log1 [kt | expr |]]
        end; unfold ret; intros [= _ <-] || discriminate;
        apply to_uint_range.
  - intros Het.
    unfold calc_options_string_link_mtu, frame_calculate_payload_size,
      frame_calculate_payload_overhead.
    rewrite Het; reflexivity.
Qed.

End CalculatorProperties.

Lemma frame_calculate_payload_size_exact_witness :
  (0 <= 1500 <= INT_MAX /\ 0 <= 32 <= INT_MAX)
  /\ @frame_calculate_payload_size overhead_env_model
       (mk_frame 0 0 0 0 32 0) options_plain
     = 1536
  /\ @calc_options_string_link_mtu overhead_env_model options_plain
       (mk_frame 0 0 0 0 32 0) []
     = ([], Returns 1536).
Proof.
  assert (Hmtu : 0 <= tun_mtu (ce options_plain) <= INT_MAX)
    by (vm_compute; split; discriminate).
  assert (Het : 0 <= extra_tun (mk_frame 0 0 0 0 32 0) <= INT_MAX)
    by (vm_compute; split; discriminate).
  split; [split; vm_compute; split; discriminate |].
  destruct (@frame_calculate_payload_size_exact overhead_env_model
              (mk_frame 0 0 0 0 32 0) options_plain [] Hmtu Het)
    as (Hsize & Hcalc).
  split; [exact Hsize | apply (Hcalc eq_refl); vm_compute; reflexivity].
Defined.

Lemma frame_calculate_protocol_header_size_non_tls_witness :
  (tls_server options_static_key = false
   /\ tls_client options_static_key = false)
  /\ @frame_calculate_protocol_header_size overhead_env_model
       ("AES-256-CBC", "SHA1") options_static_key 0 true
     = 0 + 2 + 28.
Proof.
  split; [split; reflexivity |].
  exact (@frame_calculate_protocol_header_size_non_tls overhead_env_model
           ("AES-256-CBC", "SHA1") options_static_key 0 true
           crypto_overhead_uint_model eq_refl eq_refl).
Defined.

Lemma frame_calculate_protocol_header_size_bounds_witness :
  24 <= @frame_calculate_protocol_header_size overhead_env_model
          ("none", "SHA1") options_udp_proxy 0 true
     <= 24 + 16.
Proof.
  exact (@frame_calculate_protocol_header_size_bounds overhead_env_model
           ("none", "SHA1") options_udp_proxy 0 true
           crypto_overhead_uint_model).
Defined.

Lemma calc_options_string_link_mtu_cipher_witness :
  (cstring "AES-256-CBC" /\ crypto_configured options_static_key = true)
  /\ @calc_options_string_link_mtu overhead_env_model options_static_key
       frame_zero []
     = ([], Returns 1530).
Proof.
  assert (Hname : cstring (ciphername options_static_key))
    by (cbn; repeat split; discriminate).
  assert (Hne : ciphername options_static_key <> "BF-CBC") by discriminate.
  split; [split; [exact Hname | reflexivity] |].
  exact (@calc_options_string_link_mtu_cipher overhead_env_model
           options_static_key frame_zero [] Hname Hne eq_refl).
Defined.

(** ** Discovery-mode translation *)

Section TranslateProperties.

Context {sys : sys_h}.

Lemma translate_returns (name : string) (log log' : list message) (v : Z) :
  cstring name ->
  translate_mtu_discover_type_name name log = (log', Returns v) ->
  exists modes,
    ip_pmtudisc = Some modes
    /\ log' = log
    /\ ((name = "yes" /\ v = IP_PMTUDISC_DO modes)
        \/ (name = "maybe" /\ v = IP_PMTUDISC_WANT modes)
        \/ (name = "no" /\ v = IP_PMTUDISC_DONT modes)).
Proof.
  intros Hname.
  assert (Hlit : cstring "yes" /\ cstring "maybe" /\ cstring "no")
    by (cbn; repeat split; discriminate).
  destruct Hlit as (Hy & Hm & Hn).
  unfold translate_mtu_discover_type_name.
  destruct ip_pmtudisc as [modes |]; [| discriminate].
  destruct (strcmp name "yes" =? 0) eqn:E1.
  { intros [= <- <-]; exists modes; repeat split.
    left; split; [| reflexivity].
    apply (strcmp_eq name "yes" Hname Hy), Z.eqb_eq, E1. }
  destruct (strcmp name "maybe" =? 0) eqn:E2.
  { intros [= <- <-]; exists modes; repeat split.
    right; left; split; [| reflexivity].
    apply (strcmp_eq name "maybe" Hname Hm), Z.eqb_eq, E2. }
  destruct (strcmp name "no" =? 0) eqn:E3; [| discriminate].
  intros [= <- <-]; exists modes; repeat split.
  right; right; split; [| reflexivity].
  apply (strcmp_eq name "no" Hname Hn), Z.eqb_eq, E3.
Qed.

(** X13: the [return -1] at the end of [translate_mtu_discover_type_name]
    is never reached: for every name and platform the call either returns
    one of the three modes of the platform with nothing logged, or ends the
    process after one line at [M_FATAL]. *)
Theorem translate_mtu_discover_type_name_outcome
        (name : string) (log : list message) :
  (exists modes v,
      ip_pmtudisc = Some modes
      /\ translate_mtu_discover_type_name name log = (log, Returns v)
      /\ In v [IP_PMTUDISC_DO modes; IP_PMTUDISC_WANT modes;
               IP_PMTUDISC_DONT modes])
  \/ (exists line,
         translate_mtu_discover_type_name name log
         = ((log ++ [mk_message M_FATAL line])%list, FatalExit)).
Proof.
  unfold translate_mtu_discover_type_name.
  destruct ip_pmtudisc as [modes |]; [| right; eexists; reflexivity].
  destruct (strcmp name "yes" =? 0);
    [left; exists modes; eexists; repeat split; cbn; tauto |].
  destruct (strcmp name "maybe" =? 0);
    [left; exists modes; eexists; repeat split; cbn; tauto |].
  destruct (strcmp name "no" =? 0);
    [left; exists modes; eexists; repeat split; cbn; tauto |].
  right; eexists; reflexivity.
Qed.

(** X14: on a platform whose three modes are distinct, two names that are
    translated to the same mode are the same name. *)
Theorem translate_mtu_discover_type_name_injective
        (modes : pmtudisc) (a b : string) (la lb la' lb' : list message)
        (v : Z) :
  ip_pmtudisc = Some modes ->
  List.NoDup [IP_PMTUDISC_DO modes; IP_PMTUDISC_WANT modes;
              IP_PMTUDISC_DONT modes] ->
  cstring a -> cstring b ->
  translate_mtu_discover_type_name a la = (la', Returns v) ->
  translate_mtu_discover_type_name b lb = (lb', Returns v) ->
  a = b.
Proof.
  intros Hmodes Hdup Ha Hb Hra Hrb.
  destruct (translate_returns a la la' v Ha Hra) as (ma & Hma & _ & Hca).
  destruct (translate_returns b lb lb' v Hb Hrb) as (mb & Hmb & _ & Hcb).
  assert (ma = modes) by congruence; assert (mb = modes) by congruence.
  subst ma mb.
  inversion Hdup as [| x l Hn1 Hdup1]; subst.
  inversion Hdup1 as [| y l' Hn2 _]; subst.
  cbn in Hn1, Hn2.
  destruct Hca as [[-> Hva] | [[-> Hva] | [-> Hva]]],
           Hcb as [[-> Hvb] | [[-> Hvb] | [-> Hvb]]];
    try reflexivity; exfalso; intuition congruence.
Qed.

End TranslateProperties.

Lemma translate_mtu_discover_type_name_injective_witness :
  (List.NoDup [2; 1; 0] /\ cstring "maybe")
  /\ "maybe" = "maybe".
Proof.
  assert (Hdup : List.NoDup [2; 1; 0]).
  { repeat constructor; cbn; intros H;
      repeat (destruct H as [H | H]; [discriminate H |]); exact H. }
  assert (Hname : cstring "maybe") by (cbn; repeat split; discriminate).
  split; [split; assumption |].
  exact (@translate_mtu_discover_type_name_injective linux (mk_pmtudisc 0 1 2)
           "maybe" "maybe" [] [] [] [] 1 eq_refl Hdup Hname Hname
           eq_refl eq_refl).
Defined.

(** ** Extended socket-error interpreter, whatever the length of the trace *)

Section InterpreterProperties.

Context {sys : sys_h}.

Lemma received_prefix (fd : errqueue) :
  (received fd ++ skipn (List.length (received fd)) fd)%list = fd.
Proof.
  induction fd as [| m fd IH]; [reflexivity |].
  cbn [received]; destruct (extended_err m);
    cbn [List.length skipn app]; [now rewrite IH | reflexivity].
Qed.

Lemma received_metadata (fd : errqueue) (m : msghdr) :
  In m (removelast (received fd)) -> extended_err m <> None.
Proof.
  induction fd as [| x fd IH]; [intros [] |].
  cbn [received]; destruct (extended_err x) eqn:Hx; [| intros []].
  destruct (received fd) as [| y l] eqn:Hrec; [intros [] |].
  change (removelast (x :: y :: l)) with (x :: removelast (y :: l)).
  intros [<- | Hin]; [congruence | apply IH, Hin].
Qed.

(** X15: whatever the length of the trace, [*mtu] is the [ee_info] of the
    last received entry classified as [EMSGSIZE], or 0; the entries the
    call leaves in the queue are those behind the received ones, none is
    lost; and every received entry but the last carries metadata. *)
Theorem format_extended_socket_error_mtu (fd : errqueue) :
  snd (fst (format_extended_socket_error fd)) = discovered_mtu (received fd)
  /\ (received fd ++ snd (format_extended_socket_error fd))%list = fd
  /\ (forall m : msghdr,
        In m (removelast (received fd)) -> extended_err m <> None).
Proof.
  unfold format_extended_socket_error.
  destruct (drain_mtu_rest fd (alloc_buf_gc 256) 0) as [Hmtu Hrest].
  destruct (drain fd (alloc_buf_gc 256) 0) as [[out mtu] rest].
  cbn [fst snd] in *; subst mtu rest.
  split; [reflexivity |].
  split; [apply received_prefix | apply received_metadata].
Qed.

(** X16: the description never exceeds 255 characters and is always the
    beginning of the full trace: a long trace is cut, never altered. *)
Theorem format_extended_socket_error_prefix (fd : errqueue) :
  exists rest,
    expected_trace fd = fst (fst (format_extended_socket_error fd)) ++ rest
    /\ (String.length (fst (fst (format_extended_socket_error fd))) <= 255)%nat.
Proof.
  unfold format_extended_socket_error.
  pose proof (drain_truncated 255 fd "" (alloc_buf_gc 256) 0 eq_refl eq_refl)
    as Hout.
  destruct (drain fd (alloc_buf_gc 256) 0) as [[out mtu] rest0].
  cbn [fst snd] in *; subst out.
  change ("" ++ ?x) with x.
  unfold expected_trace, BSTR.
  destruct (trace_elements fd) as [| e els] eqn:Hels.
  { exists ""; split; [reflexivity | cbn; lia]. }
  rewrite separated_concat by discriminate.
  set (full := String.concat "|" (e :: els)).
  destruct (Nat.lt_ge_cases (String.length full) 255) as [Hshort | Hlong].
  - rewrite truncate_all by (rewrite length_append; cbn [String.length]; lia).
    unfold buf_rmtail; cbn [data capacity].
    rewrite last_char_append_char, Ascii.eqb_refl, drop_last_append_char.
    exists ""; cbn [data]; split; [now rewrite append_empty_r | lia].
  - rewrite truncate_app_short by exact Hlong.
    pose proof (truncate_length_le 255 full) as Hlen.
    destruct (truncate_prefix 255 full) as [r1 Hr1].
    unfold buf_rmtail; cbn [data capacity].
    destruct (last_char (truncate 255 full)) as [c |];
      [destruct (Ascii.eqb c "|") |]; cbn [data];
      try (exists r1; split; [exact Hr1 | exact Hlen]).
    destruct (drop_last_prefix (truncate 255 full)) as [r2 Hr2].
    exists (r2 ++ r1); split.
    + rewrite <- append_assoc, <- Hr2; exact Hr1.
    + pose proof (drop_last_length_le (truncate 255 full)); lia.
Qed.

End InterpreterProperties.

(** ** Frame printing *)

Lemma string_of_uint_length (d : Decimal.uint) :
  String.length (NilEmpty.string_of_uint d) = Decimal.nb_digits d.
Proof. induction d; cbn; congruence. Qed.

Lemma usize_digits (d : Decimal.uint) :
  DecimalPos.Unsigned.usize d = N.of_nat (Decimal.nb_digits d).
Proof.
  induction d; cbn [DecimalPos.Unsigned.usize Decimal.nb_digits];
    try reflexivity; rewrite IHd; lia.
Qed.

(** A number below [10 ^ n] has at most [n] digits after its leading
    zeros. *)
Lemma nzhead_digits (d : Decimal.uint) (n : nat) :
  (Pos.of_uint d < 10 ^ N.of_nat n)%N ->
  (Decimal.nb_digits (Decimal.nzhead d) <= n)%nat.
Proof.
  induction d; intros Hlt; cbn [Decimal.nzhead];
    try (apply IHd; exact Hlt); try (cbn; lia);
    cbn [Pos.of_uint] in Hlt;
    rewrite DecimalPos.Unsigned.of_uint_acc_rev, usize_digits in Hlt;
    cbn [Decimal.nb_digits];
    assert (Hpow : (10 ^ N.of_nat (Decimal.nb_digits d) < 10 ^ N.of_nat n)%N)
      by (eapply N.le_lt_trans; [| exact Hlt];
          set (x := (10 ^ N.of_nat (Decimal.nb_digits d))%N); lia);
    apply N.pow_lt_mono_r_iff in Hpow; lia.
Qed.

Lemma pos_digits (p : positive) :
  (N.pos p < 10 ^ 10)%N -> (Decimal.nb_digits (Pos.to_uint p) <= 10)%nat.
Proof.
  intros Hlt.
  assert (Hnorm : Decimal.unorm (Pos.to_uint p) = Pos.to_uint p).
  { rewrite <- DecimalPos.Unsigned.to_of, DecimalPos.Unsigned.of_to.
    reflexivity. }
  pose proof (nzhead_digits (Pos.to_uint p) 10) as Hnz.
  rewrite DecimalPos.Unsigned.of_to in Hnz.
  specialize (Hnz Hlt).
  rewrite <- Hnorm; unfold Decimal.unorm.
  destruct (Decimal.nzhead (Pos.to_uint p)); cbn [Decimal.nb_digits] in *; lia.
Qed.

(** [%d] of a number of less than eleven digits takes at most eleven
    characters. *)
Lemma fmt_d_length (z : Z) :
  - 10 ^ 10 < z < 10 ^ 10 -> (String.length (fmt_d z) <= 11)%nat.
Proof.
  intros Hz; unfold fmt_d.
  destruct z as [| p | p]; [cbn; lia | |];
    assert (Hp : (N.pos p < 10 ^ 10)%N) by lia;
    pose proof (pos_digits p Hp) as Hd;
    pose proof (DecimalPos.Unsigned.to_uint_nonnil p) as Hnil;
    cbn [Z.to_int NilZero.string_of_int NilZero.string_of_uint];
    destruct (Pos.to_uint p) eqn:Hu; try (now destruct Hnil);
    rewrite ?length_append; cbn [String.length NilZero.string_of_uint];
    rewrite <- ?Hu in *; try rewrite string_of_uint_length in *;
    cbn [NilEmpty.string_of_uint String.length];
    rewrite ?string_of_uint_length; cbn [Decimal.nb_digits] in Hd; lia.
Qed.

Lemma int_range_digits (z : Z) : int_range z -> - 10 ^ 10 < z < 10 ^ 10.
Proof. unfold int_range, INT_MIN, INT_MAX; lia. Qed.

Lemma frame_print_out_complete (f : frame) (prefix : option string) :
  int_frame f ->
  match prefix with
  | Some p => (String.length p <= 163)%nat
  | None => True
  end ->
  BSTR (frame_print_out f prefix)
  = match prefix with
    | Some p => p ++ " " ++ frame_fields f
    | None => frame_fields f
    end.
Proof.
  intros (H1 & H2 & H3 & H4 & H5 & H6) Hprefix.
  apply int_range_digits, fmt_d_length in H1, H2, H3, H4, H5, H6.
  unfold frame_print_out, frame_fields, BSTR.
  unfold alloc_buf_gc.
  destruct prefix as [p |];
    repeat match goal with
           | |- context [buf_printf (mk_buffer ?c ?d) ?t] =>
               rewrite (buf_printf_fits (mk_buffer c d) t)
                 by (cbn [data capacity]; rewrite ?length_append;
                     cbn [String.length]; lia);
               cbn [data capacity]
           end;
    rewrite ?append_assoc; reflexivity.
Qed.

(** X17: for a frame of [int] fields and a prefix of at most 163
    characters (or none), [frame_print] logs one line at the given level
    that holds the prefix and all six fields in full: the buffer of 256
    bytes cuts nothing; the call returns unless the level is fatal. *)
Theorem frame_print_complete
        (f : frame) (level : msglevel) (prefix : option string)
        (log : list message) :
  int_frame f ->
  match prefix with
  | Some p => (String.length p <= 163)%nat
  | None => True
  end ->
  frame_print f level prefix log
  = ((log ++ [mk_message level
                match prefix with
                | Some p => p ++ " " ++ frame_fields f
                | None => frame_fields f
                end])%list,
     if is_fatal level then FatalExit else Returns tt).
Proof.
  intros Hint Hprefix.
  unfold frame_print, msg.
  rewrite (frame_print_out_complete f prefix Hint Hprefix); reflexivity.
Qed.

Lemma frame_print_complete_witness :
  (int_frame frame_1500 /\ (String.length "MTU" <= 163)%nat)
  /\ frame_print frame_1500 M_WARN (Some "MTU") []
     = ([mk_message M_WARN "MTU [ L:1500 D:1500 EF:40 EB:0 ET:0 EL:0 ]"],
        Returns tt).
Proof.
  assert (Hint : int_frame frame_1500)
    by (repeat split; vm_compute; discriminate).
  assert (Hlen : (String.length "MTU" <= 163)%nat) by (cbn; lia).
  split; [split; assumption |].
  exact (frame_print_complete frame_1500 M_WARN (Some "MTU") [] Hint Hlen).
Defined.

Section FinalizeLine.

Context {hdr : mtu_h}.

(** X18: when [frame_finalize] ends on a tun MTU below the minimum, the
    last line logged is "MTU is too small" followed by the six fields of
    the frame in full, with the [link_mtu] just assigned and the
    [link_mtu_dynamic] the frame came with. *)
Theorem frame_finalize_fatal_line
        (f : frame) (link_mtu_defined : bool) (link_mtu_arg : Z)
        (tun_mtu_defined : bool) (tun_mtu : Z) (log : list message) :
  xorb link_mtu_defined tun_mtu_defined = true ->
  int_frame f -> int_range link_mtu_arg ->
  let f1 :=
    set_link_mtu f (assigned_link_mtu f link_mtu_arg tun_mtu_defined tun_mtu) in
  TUN_MTU_SIZE f1 < TUN_MTU_MIN ->
  frame_finalize f link_mtu_defined link_mtu_arg tun_mtu_defined tun_mtu log
  = ((log ++ [tun_mtu_warning f1;
              mk_message M_FATAL ("MTU is too small " ++ frame_fields f1)])%list,
     FatalExit)
  /\ link_mtu_dynamic f1 = link_mtu_dynamic f.
Proof.
  intros Hone (H1 & H2 & H3 & H4 & H5 & H6) Harg f1 Hsmall.
  assert (Hint : int_frame f1).
  { subst f1; unfold int_frame, assigned_link_mtu.
    cbn [link_mtu link_mtu_dynamic extra_frame extra_buffer extra_tun
         extra_link set_link_mtu].
    split; [| exact (conj H2 (conj H3 (conj H4 (conj H5 H6))))].
    destruct tun_mtu_defined; [apply int_wrap_range | exact Harg]. }
  rewrite frame_finalize_run by exact Hone; fold f1.
  apply Z.ltb_lt in Hsmall; rewrite Hsmall.
  rewrite (frame_print_out_complete f1 (Some "MTU is too small") Hint)
    by (cbn; lia).
  split; reflexivity.
Qed.

End FinalizeLine.

Lemma frame_finalize_fatal_line_witness :
  (xorb true false = true /\ int_frame frame_overhead_40 /\ int_range 120)
  /\ @frame_finalize mtu_h_model frame_overhead_40 true 120 false 0 []
     = ([mk_message M_WARN "TUN MTU value (80) must be at least 100";
         mk_message M_FATAL
           "MTU is too small [ L:120 D:0 EF:40 EB:0 ET:0 EL:0 ]"],
        FatalExit).
Proof.
  assert (Hint : int_frame frame_overhead_40)
    by (repeat split; vm_compute; discriminate).
  assert (Harg : int_range 120) by (split; vm_compute; discriminate).
  split; [exact (conj eq_refl (conj Hint Harg)) |].
  apply (proj1 (@frame_finalize_fatal_line mtu_h_model frame_overhead_40
                  true 120 false 0 [] eq_refl Hint Harg eq_refl)).
Defined.

(** ** Socket options *)

Lemma switch_no_case {A : Type} (v : Z) (cases : list (Z * A)) (default : A) :
  Forall (fun c => fst c <> v) cases -> switch v cases default = default.
Proof.
  induction 1 as [| [label body] cases Hne _ IH]; [reflexivity |].
  cbn [switch fst] in *.
  destruct (v =? label) eqn:Heq; [| exact IH].
  apply Z.eqb_eq in Heq; now destruct Hne.
Qed.

Section SocketProperties.

Context {sys : sys_h} {sk : socket_h}.

(** X19: [set_mtu_discover_type] leaves the socket alone in two cases: a
    negative type returns at once, for every address family, with nothing
    logged; a type that is not negative on a family without a compiled
    case ends the process with the not-supported message. *)
Theorem set_mtu_discover_type_untouched
        (sd : socket) (mtu_type proto_af : Z) (log : list message) :
  (mtu_type < 0 ->
   set_mtu_discover_type sd mtu_type proto_af log = (log, Returns sd))
  /\ (0 <= mtu_type ->
      IP_MTU_DISCOVER = None \/ proto_af <> AF_INET ->
      IPV6_MTU_DISCOVER = None \/ proto_af <> AF_INET6 ->
      set_mtu_discover_type sd mtu_type proto_af log
      = ((log ++ [mk_message M_FATAL "--mtu-disc is not supported on this OS"])%list,
         FatalExit)).
Proof.
  unfold set_mtu_discover_type.
  split.
  - intros Hneg; apply Z.leb_gt in Hneg; rewrite Hneg; reflexivity.
  - intros Hpos H4 H6; apply Z.leb_le in Hpos; rewrite Hpos.
    rewrite switch_no_case; [reflexivity |].
    unfold mtu_discover_cases.
    apply Forall_app; split.
    + destruct IP_MTU_DISCOVER; [| constructor].
      destruct H4 as [H4 | H4]; [discriminate H4 |].
      repeat constructor; cbn; congruence.
    + destruct IPV6_MTU_DISCOVER; [| constructor].
      destruct H6 as [H6 | H6]; [discriminate H6 |].
      repeat constructor; cbn; congruence.
Qed.

(** X20: a type that is not negative on [AF_INET], where the header
    defines [IP_MTU_DISCOVER], is handed to [setsockopt] at level
    [IPPROTO_IP]: on success the call returns the socket so set with
    nothing logged; on failure it logs one line at [M_ERR] that names the
    type.  The same holds on [AF_INET6] with [IPV6_MTU_DISCOVER] at level
    [IPPROTO_IPV6]. *)
Theorem set_mtu_discover_type_applies
        (sd : socket) (mtu_type : Z) (log : list message) :
  0 <= mtu_type ->
  (forall optname : Z,
      IP_MTU_DISCOVER = Some optname ->
      let r := setsockopt sd IPPROTO_IP optname mtu_type in
      set_mtu_discover_type sd mtu_type AF_INET log
      = if snd r =? 0
        then (log, Returns (fst r))
        else ((log ++ [mk_message M_ERR
                         ("Error setting IP_MTU_DISCOVER type="
                          ++ fmt_d mtu_type ++ " on TCP/UDP socket")])%list,
              if is_fatal M_ERR then FatalExit else Returns (fst r)))
  /\ (forall optname : Z,
        IPV6_MTU_DISCOVER = Some optname ->
        IP_MTU_DISCOVER = None \/ AF_INET6 <> AF_INET ->
        let r := setsockopt sd IPPROTO_IPV6 optname mtu_type in
        set_mtu_discover_type sd mtu_type AF_INET6 log
        = if snd r =? 0
          then (log, Returns (fst r))
          else ((log ++ [mk_message M_ERR
                           ("Error setting IPV6_MTU_DISCOVER type="
                            ++ fmt_d mtu_type ++ " on TCP6/UDP6 socket")])%list,
                if is_fatal M_ERR then FatalExit else Returns (fst r))).
Proof.
  intros Hpos; apply Z.leb_le in Hpos.
  unfold set_mtu_discover_type, mtu_discover_cases; rewrite Hpos.
  split.
  - intros optname Hopt; cbv zeta; rewrite Hopt.
    cbn [app switch]; rewrite Z.eqb_refl.
    unfold mtu_discover_inet, bind, msg, ret.
    destruct (setsockopt sd IPPROTO_IP optname mtu_type) as [sd' res].
    cbn [fst snd].
    destruct (res =? 0); cbn [negb]; [reflexivity |].
    destruct (is_fatal M_ERR); reflexivity.
  - intros optname Hopt Hfirst; cbv zeta; rewrite Hopt.
    assert (Hskip :
              forall body : list (Z * M socket),
                switch AF_INET6
                  (match IP_MTU_DISCOVER with
                   | Some o => [(AF_INET, mtu_discover_inet sd mtu_type o)]
                   | None => []
                   end ++ body)%list
                  (msg M_FATAL MTUDISC_NOT_SUPPORTED_MSG ;; ret sd)
                = switch AF_INET6 body
                    (msg M_FATAL MTUDISC_NOT_SUPPORTED_MSG ;; ret sd)).
    { intros body.
      destruct IP_MTU_DISCOVER; [| reflexivity].
      destruct Hfirst as [Hfirst | Hfirst]; [discriminate Hfirst |].
      cbn [app switch].
      apply Z.eqb_neq in Hfirst; rewrite Hfirst; reflexivity. }
    rewrite Hskip.
    cbn [switch]; rewrite Z.eqb_refl.
    unfold mtu_discover_inet6, bind, msg, ret.
    destruct (setsockopt sd IPPROTO_IPV6 optname mtu_type) as [sd' res].
    cbn [fst snd].
    destruct (res =? 0); cbn [negb]; [reflexivity |].
    destruct (is_fatal M_ERR); reflexivity.
Qed.

(** X21: [set_sock_extended_error_passing] asks for [IP_RECVERR] with the
    value 1 at level [SOL_IP], and a refusal does not stop the process
    when the warning level is not fatal: the call returns the socket
    [setsockopt] left, having logged nothing on success and one warning on
    failure. *)
Theorem set_sock_extended_error_passing_returns
        (sd : socket) (log : list message) :
  is_fatal (or_M_ERRNO M_WARN) = false ->
  let r := setsockopt sd SOL_IP IP_RECVERR 1 in
  exists log',
    set_sock_extended_error_passing sd log = (log', Returns (fst r))
    /\ (snd r = 0 -> log' = log)
    /\ (snd r <> 0 ->
        exists line,
          log' = (log ++ [mk_message (or_M_ERRNO M_WARN) line])%list).
Proof.
  intros Hwarn r; subst r.
  unfold set_sock_extended_error_passing, bind, msg, ret.
  destruct (setsockopt sd SOL_IP IP_RECVERR 1) as [sd' res].
  cbn [fst snd].
  destruct (res =? 0) eqn:Hres; cbn [negb].
  - eexists; split; [reflexivity |].
    apply Z.eqb_eq in Hres.
    split; [reflexivity | intros Hne; now destruct Hne].
  - rewrite Hwarn.
    eexists; split; [reflexivity |].
    apply Z.eqb_neq in Hres.
    split; [intros Hz; now destruct Hres | intros _; eexists; reflexivity].
Qed.

End SocketProperties.

Lemma set_mtu_discover_type_untouched_witness :
  @set_mtu_discover_type socket_model [] (-1) 2 [] = ([], Returns [])
  /\ @set_mtu_discover_type socket_model [] 2 1 []
     = ([mk_message M_FATAL "--mtu-disc is not supported on this OS"],
        FatalExit).
Proof.
  destruct (@set_mtu_discover_type_untouched socket_model [] (-1) 2 [])
    as [Hneg _].
  destruct (@set_mtu_discover_type_untouched socket_model [] 2 1 [])
    as [_ Hfam].
  split.
  - apply Hneg; reflexivity.
  - apply Hfam; [discriminate | right; discriminate | right; discriminate].
Defined.

Lemma set_mtu_discover_type_applies_witness :
  0 <= 2
  /\ @set_mtu_discover_type socket_model [] 2 2 []
     = ([], Returns [(0, 10, 2)])
  /\ @set_mtu_discover_type socket_model [] 2 10 []
     = ([], Returns [(41, 23, 2)]).
Proof.
  assert (Hpos : 0 <= 2) by lia.
  destruct (@set_mtu_discover_type_applies socket_model [] 2 [] Hpos)
    as [H4 H6].
  split; [exact Hpos |].
  split.
  - exact (H4 10 eq_refl).
  - apply (H6 23 eq_refl); right; discriminate.
Defined.

Lemma set_sock_extended_error_passing_returns_witness :
  is_fatal (@or_M_ERRNO socket_model M_WARN) = false
  /\ exists log',
       @set_sock_extended_error_passing linux socket_model [] []
       = (log', Returns [(0, 11, 1)])
       /\ log' = [].
Proof.
  split; [reflexivity |].
  destruct (@set_sock_extended_error_passing_returns linux socket_model [] []
              eq_refl) as (log' & Hrun & Hok & _).
  exists log'; split; [exact Hrun | apply Hok; reflexivity].
Defined.
